(** * reader3 server: the sectioning engine, the book cache and chapter
      navigation of [server.py], embedded in Rocq.

    The embedding follows the Python source function by function.  Values
    that Python leaves to libraries are kept abstract where the source does
    not depend on them: the HTML parser behind [BeautifulSoup(html,
    "html.parser")] and the serializer behind [str(node)] are variables of
    the section in which [build_subsection_content] lives. *)

From Stdlib Require Import ZArith String Ascii.
From stdpp Require Import base option list gmap strings.

Local Open Scope string_scope.
Local Open Scope Z_scope.
Local Open Scope list_scope.

(** ** Python results: a value or a raised exception *)

Inductive exn : Type :=
| IndexError
| ValueError
| ParserRejectedMarkup
| HTTPException (status_code : Z) (detail : string).

Inductive outcome (A : Type) : Type :=
| Return (a : A)
| Raise (e : exn).
Arguments Return {A} a.
Arguments Raise {A} e.

#[global] Instance outcome_ret : MRet outcome := @Return.
#[global] Instance outcome_bind : MBind outcome := λ A B f m,
  match m with
  | Return a => f a
  | Raise e => Raise e
  end.

(** [s[i]] on a Python string, and [int(c)] on a one-character string. *)
Definition str_index (s : string) (i : nat) : outcome ascii :=
  match String.get i s with
  | Some c => Return c
  | None => Raise IndexError
  end.

Definition int_of_char (c : ascii) : outcome Z :=
  let n := nat_of_ascii c in
  if ((48 <=? n) && (n <=? 57))%nat then Return (Z.of_nat (n - 48))
  else Raise ValueError.

(** ** The document tree of bs4

    A [Tag] has a name, a dict of attributes and its ordered contents; a
    [NavigableString] is character data and has no [name].  The three
    attributes the server looks at ([id], [name], [href]) are single-valued
    in bs4's HTML tree builder, so attribute values are strings. *)

#[warnings="-register-all"]
Inductive Node : Type :=
| Tag (name : string) (attrs : gmap string string) (contents : list Node)
| NavigableString (text : string).

(** [getattr(node, "name", None)] *)
Definition node_name (n : Node) : option string :=
  match n with
  | Tag nm _ _ => Some nm
  | NavigableString _ => None
  end.

Definition node_attr (n : Node) (key : string) : option string :=
  match n with
  | Tag _ attrs _ => attrs !! key
  | NavigableString _ => None
  end.

(** bs4 elements carry [parent], [next_sibling] and [previous_sibling]
    references.  An element is therefore a node together with its position:
    the frames of its ancestors, nearest first, each holding the ancestor's
    name and attributes and the siblings on either side. *)

Record Frame : Type := {
  fr_name : string;
  fr_attrs : gmap string string;
  fr_previous : list Node;   (* previous siblings, nearest first *)
  fr_next : list Node        (* next siblings, in document order *)
}.

Record PageElement : Type := {
  node : Node;
  above : list Frame
}.

(** The parent node, rebuilt from a frame and the child it surrounds. *)
Definition plug (f : Frame) (n : Node) : Node :=
  Tag (fr_name f) (fr_attrs f) (rev (fr_previous f) ++ n :: fr_next f).

(** [element.parents]: the ancestors, nearest first. *)
Fixpoint parents_in (n : Node) (fs : list Frame) : list PageElement :=
  match fs with
  | [] => []
  | f :: up =>
      let p := plug f n in
      {| node := p; above := up |} :: parents_in p up
  end.

Definition parents (e : PageElement) : list PageElement :=
  parents_in (node e) (above e).

(** [element.next_siblings] *)
Definition next_siblings (e : PageElement) : list Node :=
  match above e with
  | [] => []
  | f :: _ => fr_next f
  end.

(** [element.descendants]: every node below, in document order (pre-order,
    depth first). *)
Fixpoint descendants_in (n : Node) (fs : list Frame) : list PageElement :=
  match n with
  | NavigableString _ => []
  | Tag nm attrs cs =>
      (fix walk (before rest : list Node) {struct rest} : list PageElement :=
         match rest with
         | [] => []
         | c :: rest' =>
             let here :=
               {| fr_name := nm; fr_attrs := attrs;
                  fr_previous := before; fr_next := rest' |} :: fs in
             {| node := c; above := here |}
               :: descendants_in c here ++ walk (c :: before) rest'
         end) [] cs
  end.

Definition descendants (e : PageElement) : list PageElement :=
  descendants_in (node e) (above e).

(** ** Searching the tree

    [find] and [find_parent] build a [SoupStrainer] from their arguments:
    a name criterion (a string or a collection of strings) and attribute
    criteria, every one of which has to hold.  A string criterion matches by
    equality.  Only tags are candidates. *)

Record SoupStrainer : Type := {
  want_name : option (gset string);
  want_attrs : list (string * string)
}.

Definition search_tag (s : SoupStrainer) (n : Node) : bool :=
  match n with
  | NavigableString _ => false
  | Tag nm attrs _ =>
      match want_name s with
      | None => true
      | Some names => bool_decide (nm ∈ names)
      end
      && forallb (λ kv, bool_decide (attrs !! kv.1 = Some kv.2)) (want_attrs s)
  end.

Fixpoint first_match (s : SoupStrainer) (l : list PageElement)
  : option PageElement :=
  match l with
  | [] => None
  | e :: l' => if search_tag s (node e) then Some e else first_match s l'
  end.

(** [tag.find(name, attrs)]: the first match among the descendants. *)
Definition find (e : PageElement) (s : SoupStrainer) : option PageElement :=
  first_match s (descendants e).

(** [tag.find_parent(name)]: the nearest match among the ancestors. *)
Definition find_parent (e : PageElement) (s : SoupStrainer)
  : option PageElement :=
  first_match s (parents e).

(** ** Subsection extraction ([build_subsection_content]) *)

Definition heading_levels : gset string :=
  {[ "h1"; "h2"; "h3"; "h4"; "h5"; "h6" ]}.

Definition is_heading_name (nm : string) : bool :=
  bool_decide (nm ∈ heading_levels).

(** [int(node_name[1])] *)
Definition level_of_name (nm : string) : outcome Z :=
  c ← str_index nm 1; int_of_char c.

Definition get_heading_level (n : Node) : outcome (option Z) :=
  match node_name n with
  | Some nm =>
      if is_heading_name nm then l ← level_of_name nm; Return (Some l)
      else Return None
  | None => Return None
  end.

(** The three searches of lines 71-75. *)
Definition by_id (anchor : string) : SoupStrainer :=
  {| want_name := None; want_attrs := [("id", anchor)] |}.
Definition by_name (anchor : string) : SoupStrainer :=
  {| want_name := None; want_attrs := [("name", anchor)] |}.
Definition by_href (anchor : string) : SoupStrainer :=
  {| want_name := Some {[ "a" ]}; want_attrs := [("href", "#" +:+ anchor)] |}.
Definition any_heading : SoupStrainer :=
  {| want_name := Some heading_levels; want_attrs := [] |}.

Definition resolve_anchor (soup : PageElement) (anchor : string)
  : option PageElement :=
  match find soup (by_id anchor) with
  | Some target => Some target
  | None =>
      match find soup (by_name anchor) with
      | Some target => Some target
      | None => find soup (by_href anchor)
      end
  end.

(** Lines 87-93: the start node and the start level. *)
Definition section_start (target : PageElement)
  : outcome (PageElement * option Z) :=
  start_level ← get_heading_level (node target);
  match start_level with
  | Some _ => Return (target, start_level)
  | None =>
      match find_parent target any_heading with
      | Some heading_parent =>
          start_level ← get_heading_level (node heading_parent);
          Return (heading_parent, start_level)
      | None => Return (target, None)
      end
  end.

(** Lines 96-102: the loop over the following siblings.  [section_nodes] is
    the list built so far; [break] returns it. *)
Fixpoint collect_siblings (start_level : option Z) (siblings : list Node)
    (section_nodes : list Node) : outcome (list Node) :=
  match siblings with
  | [] => Return section_nodes
  | sibling :: rest =>
      let continue := collect_siblings start_level rest
                        (section_nodes ++ [sibling]) in
      match node_name sibling with
      | Some sibling_name =>
          if is_heading_name sibling_name then
            sibling_level ← level_of_name sibling_name;
            if match start_level with
               | None => true
               | Some l => sibling_level <=? l
               end
            then Return section_nodes
            else continue
          else continue
      | None => continue
      end
  end.

(** ** Books, chapters and the disk

    [Book], [BookMetadata] and [ChapterContent] are declared in [reader3.py].
    [ChapterContent] has the six fields with which line 122 constructs it. *)

Module ChapterContent.
Record t : Type := mk {
  id : string;
  href : string;
  title : string;
  content : string;
  text : string;
  order : Z
}.
End ChapterContent.

(** Modelled from the spec: the declarations of [BookMetadata] and [Book]
    are in [reader3.py]; a book is its metadata (title and authors) and its
    spine, the ordered sequence of chapters. *)
Record BookMetadata : Type := {
  title : string;
  authors : list string
}.

Record Book : Type := {
  metadata : BookMetadata;
  spine : list ChapterContent.t
}.

(** What [os.path.join(BOOKS_DIR, folder_name, "book.pkl")] holds: nothing,
    a file that [open] or [pickle.load] rejects, or a pickled book.  A pickle
    that loads is taken to hold a [Book]. *)
Inductive PickleFile : Type :=
| Missing
| Unreadable
| Pickled (book : Book).

Definition Disk : Type := string → PickleFile.

(** The body of [load_book_cached] (lines 27-37). *)
Definition load_book (disk : Disk) (folder_name : string) : option Book :=
  match disk folder_name with
  | Missing => None
  | Unreadable => None
  | Pickled book => Some book
  end.

(** ** [functools.lru_cache(maxsize=10)]

    The cache keeps result values by key, most recently used first, and
    keeps whatever the decorated function returned, [None] included.  On a
    hit the entry moves to the front and the function is not called; on a
    miss the function is called and its result is stored, the least recently
    used entry being dropped when the cache is full.  [loader_calls] records
    the arguments with which the decorated body has run, oldest first. *)

Definition maxsize : nat := 10.

Record ServerState : Type := {
  lru : list (string * option Book);
  loader_calls : list string
}.

Fixpoint cache_get (key : string) (l : list (string * option Book))
  : option (option Book) :=
  match l with
  | [] => None
  | (k, v) :: l' => if String.eqb k key then Some v else cache_get key l'
  end.

Fixpoint cache_remove (key : string) (l : list (string * option Book))
  : list (string * option Book) :=
  match l with
  | [] => []
  | (k, v) :: l' =>
      if String.eqb k key then cache_remove key l'
      else (k, v) :: cache_remove key l'
  end.

Definition load_book_cached (disk : Disk) (folder_name : string)
    (st : ServerState) : option Book * ServerState :=
  match cache_get folder_name (lru st) with
  | Some result =>
      (result,
       {| lru := (folder_name, result) :: cache_remove folder_name (lru st);
          loader_calls := loader_calls st |})
  | None =>
      let result := load_book disk folder_name in
      let kept :=
        if (maxsize <=? length (lru st))%nat then removelast (lru st)
        else lru st in
      (result,
       {| lru := (folder_name, result) :: kept;
          loader_calls := loader_calls st ++ [folder_name] |})
  end.

(** ** Requests and responses *)

Record Request : Type := {
  query_params : gmap string string
}.

(** The template context of line 135.  The response is the template name
    with its context: rendering is the framework's and is not modelled. *)
Record ReaderContext : Type := {
  ctx_book : Book;
  ctx_current_chapter : ChapterContent.t;
  ctx_chapter_index : Z;
  ctx_book_id : string;
  ctx_prev_idx : option Z;
  ctx_next_idx : option Z;
  ctx_anchor : option string;
  ctx_is_subsection : bool
}.

Inductive Response : Type :=
| TemplateResponse (template : string) (context : ReaderContext).

(** [l[i]] on a Python list: negative indices count from the end. *)
Definition list_index {A : Type} (l : list A) (i : Z) : outcome A :=
  let n := Z.of_nat (length l) in
  let j := if i <? 0 then i + n else i in
  if (j <? 0) || (n <=? j) then Raise IndexError
  else match l !! Z.to_nat j with
       | Some x => Return x
       | None => Raise IndexError
       end.

(** Lines 132 and 133. *)
Definition prev_idx (chapter_index : Z) : option Z :=
  if 0 <? chapter_index then Some (chapter_index - 1) else None.

Definition next_idx (chapter_index : Z) (len_spine : Z) : option Z :=
  if chapter_index <? len_spine - 1 then Some (chapter_index + 1) else None.

Section Server.

(** [BeautifulSoup(html, "html.parser")] yields the contents of the
    document, or raises when the parser rejects the markup; [str(node)]
    serializes a node. *)
Variable html_parser : string → outcome (list Node).
Variable decode : Node → string.

(** The [BeautifulSoup] object is the root of the tree; its name is
    ["[document]"] and it has no parent. *)
Definition BeautifulSoup (html : string) : outcome PageElement :=
  cs ← html_parser html;
  Return {| node := Tag "[document]" ∅ cs; above := [] |}.

(** ["".join(str(node) for node in section_nodes)] *)
Definition join_nodes (section_nodes : list Node) : string :=
  String.concat "" (map decode section_nodes).

Definition build_subsection_content (html : string) (anchor : option string)
  : outcome (option string) :=
  match anchor with
  | None => Return None
  | Some "" => Return None
  | Some anchor =>
      soup ← BeautifulSoup html;
      match resolve_anchor soup anchor with
      | None => Return None
      | Some target =>
          '(start, start_level) ← section_start target;
          section_nodes ←
            collect_siblings start_level (next_siblings start) [node start];
          Return (Some (join_nodes section_nodes))
      end
  end.

(** ** The reader route ([read_chapter]) *)

(** Lines 122-129: a new [ChapterContent] built from the current one. *)
Definition narrowed (current_chapter : ChapterContent.t)
    (subsection_content : string) : ChapterContent.t :=
  {| ChapterContent.id := ChapterContent.id current_chapter;
     ChapterContent.href := ChapterContent.href current_chapter;
     ChapterContent.title := ChapterContent.title current_chapter;
     ChapterContent.content := subsection_content;
     ChapterContent.text := ChapterContent.text current_chapter;
     ChapterContent.order := ChapterContent.order current_chapter |}.

Definition read_chapter (disk : Disk) (request : Request) (book_id : string)
    (chapter_index : Z) (st : ServerState) : outcome Response * ServerState :=
  let '(book, st) := load_book_cached disk book_id st in
  (match book with
   | None => Raise (HTTPException 404 "Book not found")
   | Some book =>
       let len_spine := Z.of_nat (length (spine book)) in
       if (chapter_index <? 0) || (len_spine <=? chapter_index) then
         Raise (HTTPException 404 "Chapter not found")
       else
         current_chapter ← list_index (spine book) chapter_index;
         let anchor := query_params request !! "anchor" in
         subsection_content ←
           build_subsection_content
             (ChapterContent.content current_chapter) anchor;
         let current_chapter :=
           match subsection_content with
           | Some c => narrowed current_chapter c
           | None => current_chapter
           end in
         Return (TemplateResponse "reader.html"
           {| ctx_book := book;
              ctx_current_chapter := current_chapter;
              ctx_chapter_index := chapter_index;
              ctx_book_id := book_id;
              ctx_prev_idx := prev_idx chapter_index;
              ctx_next_idx := next_idx chapter_index len_spine;
              ctx_anchor := anchor;
              ctx_is_subsection :=
                match subsection_content with
                | Some _ => true
                | None => false
                end |})
   end, st).

(** [redirect_to_first_chapter] *)
Definition redirect_to_first_chapter (disk : Disk) (request : Request)
    (book_id : string) (st : ServerState) : outcome Response * ServerState :=
  read_chapter disk request book_id 0 st.

End Server.

(** ** Paths ([os.path.basename], [os.path.join]) and string tests *)

(** [s.endswith(suffix)] *)
Fixpoint str_endswith (s suffix : string) : bool :=
  String.eqb s suffix
  || match s with
     | EmptyString => false
     | String _ s' => str_endswith s' suffix
     end.

(** [s.rfind(c)]: the highest index of [c] in [s], or -1. *)
Fixpoint rfind (c : ascii) (s : string) : Z :=
  match s with
  | EmptyString => -1
  | String a s' =>
      let r := rfind c s' in
      if 0 <=? r then r + 1
      else if Ascii.eqb a c then 0
      else -1
  end.

(** [s[i:]] for an index that is not negative. *)
Fixpoint str_from (i : nat) (s : string) : string :=
  match i, s with
  | O, _ => s
  | S _, EmptyString => EmptyString
  | S i', String _ s' => str_from i' s'
  end.

(** [posixpath.basename]: [i = p.rfind("/") + 1; return p[i:]]. *)
Definition basename (p : string) : string :=
  let i := rfind "/" p + 1 in
  str_from (Z.to_nat i) p.

(** One turn of the loop of [posixpath.join]: a component that starts with
    the separator replaces the path; otherwise it is appended, after a
    separator unless the path is empty or ends with one. *)
Definition join_step (path b : string) : string :=
  if String.prefix "/" b then b
  else if String.eqb path EmptyString || str_endswith path "/" then path +:+ b
  else path +:+ "/" +:+ b.

Definition path_join (a : string) (p : list string) : string :=
  fold_left join_step p a.

(** ** The image route ([serve_image]) *)

Inductive FileResponse : Type :=
| FileResponseOf (path : string).

(** [BOOKS_DIR] is the module's global (["."] unless the command line sets
    it); [path_exists] is [os.path.exists] on the disk. *)
Definition serve_image (BOOKS_DIR : string) (path_exists : string → bool)
    (book_id image_name : string) : outcome FileResponse :=
  let safe_book_id := basename book_id in
  let safe_image_name := basename image_name in
  let img_path :=
    path_join BOOKS_DIR [safe_book_id; "images"; safe_image_name] in
  if negb (path_exists img_path) then
    Raise (HTTPException 404 "Image not found")
  else Return (FileResponseOf img_path).

(** ** The library route ([library_view]) *)

(** What [BOOKS_DIR] is on the disk: nothing, something [os.listdir]
    refuses, or a directory with its items in the order [os.listdir] gives
    them.  [is_dir] is [os.path.isdir] on an item of the directory and
    [pickles] what each item holds as [book.pkl]. *)
Inductive Listing : Type :=
| NoSuchDirectory
| NotListable
| Items (items : list string).

Record BooksDir : Type := {
  listing : Listing;
  is_dir : string → bool;
  pickles : Disk
}.

(** The dict appended to [books] at line 52. *)
Module LibraryBook.
Record t : Type := mk {
  id : string;
  title : string;
  author : string;
  chapters : Z
}.
End LibraryBook.

Definition library_book (item : string) (book : Book) : LibraryBook.t :=
  {| LibraryBook.id := item;
     LibraryBook.title := title (metadata book);
     LibraryBook.author := String.concat ", " (authors (metadata book));
     LibraryBook.chapters := Z.of_nat (length (spine book)) |}.

(** The loop of lines 46-57 over the items; [books] is the list built so
    far. *)
Fixpoint list_books (dir : BooksDir) (items : list string)
    (books : list LibraryBook.t) (st : ServerState)
  : list LibraryBook.t * ServerState :=
  match items with
  | [] => (books, st)
  | item :: rest =>
      if str_endswith item "_data" && is_dir dir item then
        let '(book, st) := load_book_cached (pickles dir) item st in
        match book with
        | Some book => list_books dir rest (books ++ [library_book item book]) st
        | None => list_books dir rest books st
        end
      else list_books dir rest books st
  end.

(** The route hands [books] to the template [library.html], unless
    [os.listdir] raises. *)
Inductive LibraryOutcome : Type :=
| LibraryPage (template : string) (books : list LibraryBook.t)
| ListdirRaises.

Definition library_view (dir : BooksDir) (st : ServerState)
  : LibraryOutcome * ServerState :=
  match listing dir with
  | NoSuchDirectory => (LibraryPage "library.html" [], st)
  | NotListable => (ListdirRaises, st)
  | Items items =>
      let '(books, st) := list_books dir items [] st in
      (LibraryPage "library.html" books, st)
  end.

(** ** Vocabulary of the statements *)

(** The heading level of a tag name as a table: 1 to 6 for h1 to h6. *)
Definition heading_level_of_tag (nm : string) : option Z :=
  if String.eqb nm "h1" then Some 1
  else if String.eqb nm "h2" then Some 2
  else if String.eqb nm "h3" then Some 3
  else if String.eqb nm "h4" then Some 4
  else if String.eqb nm "h5" then Some 5
  else if String.eqb nm "h6" then Some 6
  else None.

Definition heading_level (n : Node) : option Z :=
  node_name n ≫= heading_level_of_tag.

(** [e] is the first element of [l], in order, whose node satisfies [P]. *)
Definition first_with (P : Node → Prop) (l : list PageElement)
    (e : PageElement) : Prop :=
  ∃ pre post,
    l = pre ++ e :: post ∧ P (node e) ∧ Forall (λ x, ¬ P (node x)) pre.

Definition none_with (P : Node → Prop) (l : list PageElement) : Prop :=
  Forall (λ x, ¬ P (node x)) l.

(** A sibling at which a section of level [L] ends: a heading of level at
    most [L]. *)
Definition ends_section (L : Z) (n : Node) : Prop :=
  ∃ k, heading_level n = Some k ∧ k <= L.

(** [span] is what precedes the first element of [siblings] that satisfies
    [stop]; all of [siblings] when there is none. *)
Definition span_before (stop : Node → Prop) (siblings span : list Node)
  : Prop :=
  ∃ rest,
    siblings = span ++ rest
    ∧ Forall (λ s, ¬ stop s) span
    ∧ (rest = [] ∨ ∃ b rest', rest = b :: rest' ∧ stop b).

(** What the four strainers of the source accept. *)
Definition has_id (anchor : string) (n : Node) : Prop :=
  node_attr n "id" = Some anchor.
Definition has_name (anchor : string) (n : Node) : Prop :=
  node_attr n "name" = Some anchor.
Definition links_to (anchor : string) (n : Node) : Prop :=
  node_name n = Some "a" ∧ node_attr n "href" = Some ("#" +:+ anchor).
Definition is_heading (n : Node) : Prop := is_Some (heading_level n).

(** Where the loop breaks for a given start level. *)
Definition loop_stops (start_level : option Z) (n : Node) : Prop :=
  match start_level with
  | None => is_heading n
  | Some L => ends_section L n
  end.

(** [h] is the nearest heading among the ancestors of [target]. *)
Definition nearest_heading_ancestor (target h : PageElement) : Prop :=
  first_with is_heading (parents target) h.

Definition no_heading_ancestor (target : PageElement) : Prop :=
  none_with is_heading (parents target).

(** [start] is the heading that owns [target], and [L] its level: the target
    itself when it is a heading, its nearest heading ancestor otherwise. *)
Definition owning_heading (target start : PageElement) (L : Z) : Prop :=
  (start = target ∧ heading_level (node target) = Some L)
  ∨ (heading_level (node target) = None
     ∧ nearest_heading_ancestor target start
     ∧ heading_level (node start) = Some L).

(** Induction on nodes with the hypothesis for every child. *)
Fixpoint Node_children_ind (P : Node → Prop)
    (Hstring : ∀ t, P (NavigableString t))
    (Htag : ∀ nm attrs cs, Forall P cs → P (Tag nm attrs cs))
    (n : Node) {struct n} : P n :=
  match n with
  | NavigableString t => Hstring t
  | Tag nm attrs cs =>
      Htag nm attrs cs
        ((fix children (l : list Node) : Forall P l :=
            match l with
            | [] => @List.Forall_nil Node P
            | c :: l' =>
                @List.Forall_cons Node P c l'
                  (Node_children_ind P Hstring Htag c) (children l')
            end) cs)
  end.

(** The walk over the children inside [descendants_in]. *)
Definition walk_children (nm : string) (attrs : gmap string string)
    (fs : list Frame) : list Node → list Node → list PageElement :=
  fix walk (before rest : list Node) {struct rest} : list PageElement :=
    match rest with
    | [] => []
    | c :: rest' =>
        let here :=
          {| fr_name := nm; fr_attrs := attrs;
             fr_previous := before; fr_next := rest' |} :: fs in
        {| node := c; above := here |}
          :: descendants_in c here ++ walk (c :: before) rest'
    end.

(** The keys of the cache, most recently used first. *)
Definition cache_keys (st : ServerState) : list string := (lru st).*1.

(** What [lru_cache] keeps: no key twice, at most [maxsize] entries. *)
Definition cache_ok (st : ServerState) : Prop :=
  NoDup (cache_keys st) ∧ (length (lru st) <= maxsize)%nat.

(** Every cached result is what the loader returns on [disk]. *)
Definition coherent (disk : Disk) (st : ServerState) : Prop :=
  ∀ key result,
    cache_get key (lru st) = Some result → result = load_book disk key.

(** [c] occurs in [s]. *)
Fixpoint str_contains (c : ascii) (s : string) : bool :=
  match s with
  | EmptyString => false
  | String a s' => Ascii.eqb a c || str_contains c s'
  end.

(** The books of a directory as the disk has them: for each item that ends
    in [_data], is a directory and holds a loadable book, its entry. *)
Definition shelf (dir : BooksDir) (items : list string)
  : list LibraryBook.t :=
  omap (λ item,
          if str_endswith item "_data" && is_dir dir item
          then library_book item <$> load_book (pickles dir) item
          else None) items.

(** The entry of [key] holds [result] and at most [n] entries precede it. *)
Definition held_within (key : string) (result : option Book) (n : nat)
    (l : list (string * option Book)) : Prop :=
  ∃ pre post,
    l = pre ++ (key, result) :: post
    ∧ (key ∉ pre.*1)
    ∧ (length pre <= n)%nat.

(** The items of the directory that the loop looks into: those that end in
    [_data] and are directories. *)
Definition data_folders (dir : BooksDir) (items : list string) : list string :=
  filter (λ item, Is_true (str_endswith item "_data" && is_dir dir item)) items.

(** The path [BOOKS_DIR/a/images/b], with no separator after an empty [a]. *)
Definition image_path (BOOKS_DIR a b : string) : string :=
  BOOKS_DIR +:+ "/" +:+ a
  +:+ (if String.eqb a EmptyString then EmptyString else "/")
  +:+ "images/" +:+ b.

(** * Sample documents *)

Definition element (nm : string) (attrs : list (string * string))
    (cs : list Node) : Node :=
  Tag nm (list_to_map attrs) cs.

Definition dquote : string := String "034"%char EmptyString.

(** A serializer in the manner of bs4's on trees that need no escaping:
    attributes as [key="value"], contents between the opening and the
    closing tag. *)
Fixpoint plain_decode (n : Node) : string :=
  match n with
  | NavigableString t => t
  | Tag nm attrs cs =>
      "<" +:+ nm
      +:+ String.concat ""
            (map (λ kv, " " +:+ kv.1 +:+ "=" +:+ dquote +:+ kv.2 +:+ dquote)
                 (map_to_list attrs))
      +:+ ">" +:+ String.concat "" (map plain_decode cs)
      +:+ "</" +:+ nm +:+ ">"
  end.

(** A paragraph with an id, then a heading, then a paragraph. *)
Definition flat_par : Node := element "p" [("id", "x")] [NavigableString "a"].
Definition flat_h2 : Node := element "h2" [] [NavigableString "b"].
Definition flat_tail : Node := element "p" [] [NavigableString "c"].
Definition flat_doc : list Node := [flat_par; flat_h2; flat_tail].
Definition flat_html : string :=
  String.concat "" (map plain_decode flat_doc).

(** The nesting example: h2 A, p, h3 B, p, h2 C, p.  The first heading holds
    a span with an id; the second paragraph holds a link to [#n] and a named
    anchor whose name is also the id of the last paragraph. *)
Definition nest_span : Node := element "span" [("id", "s")] [].
Definition nest_hA : Node :=
  element "h2" [("id", "A")] [NavigableString "A"; nest_span].
Definition nest_p1 : Node := element "p" [] [NavigableString "one"].
Definition nest_hB : Node := element "h3" [("id", "B")] [NavigableString "B"].
Definition nest_link : Node := element "a" [("href", "#n")] [].
Definition nest_named : Node := element "a" [("name", "k")] [].
Definition nest_p2 : Node := element "p" [] [nest_link; nest_named].
Definition nest_hC : Node := element "h2" [("id", "C")] [NavigableString "C"].
Definition nest_p3 : Node := element "p" [("id", "k")] [NavigableString "three"].
Definition nest_doc : list Node :=
  [nest_hA; nest_p1; nest_hB; nest_p2; nest_hC; nest_p3].
Definition nest_html : string :=
  String.concat "" (map plain_decode nest_doc).

(** A parser that is right on the two samples and keeps any other markup as
    one string. *)
Definition sample_parser (html : string) : outcome (list Node) :=
  if String.eqb html flat_html then Return flat_doc
  else if String.eqb html nest_html then Return nest_doc
  else Return [NavigableString html].

Definition soup_of (cs : list Node) : PageElement :=
  {| node := Tag "[document]" ∅ cs; above := [] |}.

(** The n-th descendant of a sample, in document order. *)
Definition nth_descendant (cs : list Node) (n : nat) : PageElement :=
  nth n (descendants (soup_of cs)) (soup_of cs).

(** ** A sample library *)

Definition chapter (ident html : string) (n : Z) : ChapterContent.t :=
  {| ChapterContent.id := ident;
     ChapterContent.href := ident +:+ ".xhtml";
     ChapterContent.title := "Chapter " +:+ ident;
     ChapterContent.content := html;
     ChapterContent.text := "plain text of " +:+ ident;
     ChapterContent.order := n |}.

Definition sample_book : Book :=
  {| metadata := {| title := "Sample"; authors := ["A. Writer"] |};
     spine := [chapter "c0" flat_html 0; chapter "c1" nest_html 1;
               chapter "c2" "plain" 2] |}.

Definition no_books : Disk := λ _, Missing.

Definition one_book : Disk :=
  λ folder_name,
    if String.eqb folder_name "sample_data" then Pickled sample_book
    else Missing.

Definition fresh_server : ServerState := {| lru := []; loader_calls := [] |}.

(** A run of lookups, one after the other, on the same disk. *)
Definition lookups (disk : Disk) (keys : list string) (st : ServerState)
  : ServerState :=
  fold_left (λ st key, (load_book_cached disk key st).2) keys st.

Definition nine_others : list string :=
  ["b1"; "b2"; "b3"; "b4"; "b5"; "b6"; "b7"; "b8"; "b9"].

Definition request_with (anchor : option string) : Request :=
  {| query_params :=
       match anchor with
       | Some a => {[ "anchor" := a ]}
       | None => ∅
       end |}.

(** ** A sample books directory and a sample page *)

(** A directory with a text file, the sample book, a folder whose pickle is
    unreadable, an empty folder, and a file whose name ends in [_data]. *)
Definition sample_dir : BooksDir :=
  {| listing :=
       Items ["notes.txt"; "sample_data"; "broken_data"; "empty_data";
              "loose_data"];
     is_dir := λ item,
       negb (String.eqb item "notes.txt" || String.eqb item "loose_data");
     pickles := λ folder_name,
       if String.eqb folder_name "sample_data" then Pickled sample_book
       else if String.eqb folder_name "broken_data" then Unreadable
       else Missing |}.

(** A server whose cache is full: ten lookups, the oldest of them of
    [sample_data]. *)
Definition full_server : ServerState :=
  lookups no_books ("sample_data" :: nine_others) fresh_server.

(** The disk holds one image of the sample book. *)
Definition one_image (path : string) : bool :=
  String.eqb path "./sample_data/images/cover.jpg".


(** ** Markup that the parser rejects, and a stale cache *)

Definition bad_markup : string := "<![if".

(** A parser that rejects [bad_markup] and is [sample_parser] elsewhere. *)
Definition strict_parser (html : string) : outcome (list Node) :=
  if String.eqb html bad_markup then Raise ParserRejectedMarkup
  else sample_parser html.

Definition bad_book : Book :=
  {| metadata := {| title := "Bad"; authors := [] |};
     spine := [chapter "b0" bad_markup 0] |}.

Definition bad_disk : Disk :=
  λ folder_name,
    if String.eqb folder_name "bad_data" then Pickled bad_book else Missing.

(** A server that looked for [sample_data] when the disk did not have it. *)
Definition stale_server : ServerState :=
  (load_book_cached no_books "sample_data" fresh_server).2.

(** * Lemmas *)

Lemma heading_names (nm : string) :
  nm ∈ heading_levels ↔
  nm = "h1" ∨ nm = "h2" ∨ nm = "h3" ∨ nm = "h4" ∨ nm = "h5" ∨ nm = "h6".
Proof. unfold heading_levels. set_unfold. tauto. Qed.

(** Case analysis on the next comparison of a name with a literal. *)
Ltac case_name nm :=
  match goal with
  | |- context [String.eqb nm ?lit] =>
      destruct (String.eqb_spec nm lit) as [-> | ?]
  end.

Lemma heading_level_of_tag_Some (nm : string) (k : Z) :
  heading_level_of_tag nm = Some k →
  nm ∈ heading_levels ∧ 1 <= k <= 6 ∧ level_of_name nm = Return k.
Proof.
  unfold heading_level_of_tag. rewrite heading_names.
  repeat (case_name nm;
          [ intros [= <-]; split; [ auto 10 | split; [ lia | reflexivity ] ] | ]).
  discriminate.
Qed.

Lemma heading_level_of_tag_None (nm : string) :
  heading_level_of_tag nm = None → nm ∉ heading_levels.
Proof.
  unfold heading_level_of_tag. rewrite heading_names.
  repeat (case_name nm; [ discriminate | ]).
  intros _. intuition congruence.
Qed.

Lemma is_heading_name_level (nm : string) :
  is_heading_name nm = bool_decide (is_Some (heading_level_of_tag nm)).
Proof.
  unfold is_heading_name.
  destruct (heading_level_of_tag nm) as [k|] eqn:E.
  - apply heading_level_of_tag_Some in E as [Hin _].
    rewrite !bool_decide_eq_true_2; eauto.
  - apply heading_level_of_tag_None in E.
    rewrite bool_decide_eq_false_2 by done.
    rewrite bool_decide_eq_false_2; [done | by intros [? ?]].
Qed.

(** [int(node_name[1])] never raises under the guard of lines 83 and 98, and
    yields the level of the table. *)
Lemma get_heading_level_total (n : Node) :
  get_heading_level n = Return (heading_level n).
Proof.
  destruct n as [nm attrs cs | t]; [ | reflexivity ].
  unfold get_heading_level, heading_level. simpl.
  rewrite is_heading_name_level.
  destruct (heading_level_of_tag nm) as [k|] eqn:E.
  - rewrite bool_decide_eq_true_2 by eauto.
    apply heading_level_of_tag_Some in E as (_ & _ & ->). reflexivity.
  - rewrite bool_decide_eq_false_2; [done | by intros [? ?]].
Qed.

(** *** The positions in the tree are consistent *)

Lemma descendants_in_Tag (nm : string) (attrs : gmap string string)
    (cs : list Node) (fs : list Frame) :
  descendants_in (Tag nm attrs cs) fs = walk_children nm attrs fs [] cs.
Proof. reflexivity. Qed.

(** Every descendant of a node has that node, at its own position, among its
    ancestors, followed by the ancestors of the node. *)
Lemma descendants_in_rooted (n : Node) :
  ∀ (fs : list Frame) (e : PageElement),
    e ∈ descendants_in n fs →
    ∃ ps, parents e = ps ++ {| node := n; above := fs |} :: parents_in n fs.
Proof.
  induction n as [t | nm attrs cs IH] using Node_children_ind; intros fs e.
  - simpl. by intros ?%elem_of_nil.
  - rewrite descendants_in_Tag.
    assert (Hwalk : ∀ rest before,
              cs = rev before ++ rest →
              Forall (λ c, ∀ fs e, e ∈ descendants_in c fs →
                 ∃ ps, parents e
                       = ps ++ {| node := c; above := fs |} :: parents_in c fs)
                rest →
              e ∈ walk_children nm attrs fs before rest →
              ∃ ps, parents e
                    = ps ++ {| node := Tag nm attrs cs; above := fs |}
                         :: parents_in (Tag nm attrs cs) fs).
    { induction rest as [| c rest IHrest]; intros before Hcs Hall Hin.
      - simpl in Hin. by apply elem_of_nil in Hin.
      - apply Forall_cons in Hall as [Hc Hall]. simpl in Hin.
        apply elem_of_cons in Hin as [-> | Hin].
        + exists []. unfold parents. simpl. unfold plug. simpl.
          by rewrite <- Hcs.
        + apply elem_of_app in Hin as [Hin | Hin].
          * destruct (Hc _ _ Hin) as (ps & ->).
            exists (ps ++ [{| node := c;
                             above := {| fr_name := nm; fr_attrs := attrs;
                                         fr_previous := before;
                                         fr_next := rest |} :: fs |}]).
            rewrite <- app_assoc. simpl. unfold plug. simpl.
            by rewrite <- Hcs.
          * apply (IHrest (c :: before)); [ | done | done ].
            simpl. by rewrite <- app_assoc. }
    by apply (Hwalk cs []).
Qed.

(** In particular, the ancestors of whatever [find] returns on the soup end
    with the soup: a found element has a parent. *)
Lemma descendants_rooted (soup e : PageElement) :
  above soup = [] → e ∈ descendants soup →
  ∃ ps, parents e = ps ++ [soup].
Proof.
  intros Hroot Hin. destruct soup as [n fs]. simpl in Hroot. subst fs.
  destruct (descendants_in_rooted n [] e Hin) as (ps & ->). by exists ps.
Qed.

(** *** Searching *)

Lemma first_match_Some (s : SoupStrainer) (l : list PageElement)
    (e : PageElement) :
  first_match s l = Some e ↔ first_with (λ n, search_tag s n = true) l e.
Proof.
  induction l as [| x l IH]; simpl.
  - split; [ discriminate | ].
    intros (pre & post & Heq & _). by destruct pre.
  - destruct (search_tag s (node x)) eqn:Hx.
    + split.
      * intros [= <-]. exists [], l. repeat split; [ done | constructor ].
      * intros (pre & post & Heq & He & Hpre).
        destruct pre as [| y pre]; simplify_eq/=; [ done | ].
        apply Forall_cons in Hpre as [Hy _]. congruence.
    + rewrite IH. split.
      * intros (pre & post & -> & He & Hpre).
        exists (x :: pre), post. repeat split; [ done | ].
        constructor; [ congruence | done ].
      * intros (pre & post & Heq & He & Hpre).
        destruct pre as [| y pre]; simplify_eq/=; [ congruence | ].
        apply Forall_cons in Hpre as [_ Hpre]. by exists pre, post.
Qed.

Lemma first_match_None (s : SoupStrainer) (l : list PageElement) :
  first_match s l = None ↔ none_with (λ n, search_tag s n = true) l.
Proof.
  unfold none_with. induction l as [| x l IH]; simpl.
  - split; [ constructor | done ].
  - rewrite Forall_cons. destruct (search_tag s (node x)) eqn:Hx.
    + split; [ discriminate | intros [H _]; by destruct H ].
    + rewrite IH. split; [ intros H; split; [ congruence | done ] | tauto ].
Qed.

Lemma first_with_iff (P Q : Node → Prop) (l : list PageElement)
    (e : PageElement) :
  (∀ n, P n ↔ Q n) → first_with P l e ↔ first_with Q l e.
Proof.
  intros HPQ. unfold first_with.
  split; intros (pre & post & -> & He & Hpre); exists pre, post;
    (split; [ done | split; [ by apply HPQ | ] ]);
    eapply Forall_impl; eauto; intros x Hx HQ; apply Hx, HPQ, HQ.
Qed.

Lemma none_with_iff (P Q : Node → Prop) (l : list PageElement) :
  (∀ n, P n ↔ Q n) → none_with P l ↔ none_with Q l.
Proof.
  intros HPQ. unfold none_with.
  split; intros H; (eapply Forall_impl; [ exact H | ]);
    intros x Hx HQ; apply Hx, HPQ, HQ.
Qed.

Lemma first_with_none (P : Node → Prop) (l : list PageElement)
    (e : PageElement) :
  first_with P l e → none_with P l → False.
Proof.
  intros (pre & post & -> & He & _) Hnone.
  apply Forall_app in Hnone as [_ Hnone].
  apply Forall_cons in Hnone as [Hnone _]. auto.
Qed.

Lemma first_with_unique (P : Node → Prop) (l : list PageElement)
    (e1 e2 : PageElement) :
  first_with P l e1 → first_with P l e2 → e1 = e2.
Proof.
  intros (pre1 & post1 & -> & H1 & Hpre1) (pre2 & post2 & Heq & H2 & Hpre2).
  revert pre2 Heq Hpre2.
  induction pre1 as [| x pre1 IH]; intros [| y pre2] Heq Hpre2;
    simplify_eq/=; auto.
  - apply Forall_cons in Hpre2 as [Hy _]. by destruct Hy.
  - apply Forall_cons in Hpre1 as [Hx _]. by destruct Hx.
  - apply Forall_cons in Hpre1 as [_ Hpre1].
    apply Forall_cons in Hpre2 as [_ Hpre2]. eauto.
Qed.

Lemma search_by_id (anchor : string) (n : Node) :
  search_tag (by_id anchor) n = true ↔ has_id anchor n.
Proof.
  unfold has_id. destruct n as [nm attrs cs | t]; simpl; [ | done ].
  rewrite andb_true_r. apply bool_decide_eq_true.
Qed.

Lemma search_by_name (anchor : string) (n : Node) :
  search_tag (by_name anchor) n = true ↔ has_name anchor n.
Proof.
  unfold has_name. destruct n as [nm attrs cs | t]; simpl; [ | done ].
  rewrite andb_true_r. apply bool_decide_eq_true.
Qed.

Lemma search_by_href (anchor : string) (n : Node) :
  search_tag (by_href anchor) n = true ↔ links_to anchor n.
Proof.
  unfold links_to. destruct n as [nm attrs cs | t]; simpl.
  - rewrite andb_true_r, andb_true_iff, !bool_decide_eq_true.
    rewrite elem_of_singleton. split; intros [H1 H2]; split; congruence.
  - split; [ discriminate | intros [? _]; discriminate ].
Qed.

Lemma search_any_heading (n : Node) :
  search_tag any_heading n = true ↔ is_heading n.
Proof.
  unfold is_heading, heading_level. destruct n as [nm attrs cs | t]; simpl.
  - rewrite andb_true_r. fold (is_heading_name nm).
    rewrite is_heading_name_level. apply bool_decide_eq_true.
  - split; [ discriminate | by intros [? ?] ].
Qed.

(** *** The sibling loop *)

Lemma span_before_unique (stop : Node → Prop) (siblings s1 s2 : list Node) :
  span_before stop siblings s1 → span_before stop siblings s2 → s1 = s2.
Proof.
  intros (r1 & -> & Hs1 & Hr1) (r2 & Heq & Hs2 & Hr2).
  revert s2 Heq Hs2.
  induction s1 as [| x s1 IH]; intros [| y s2] Heq Hs2; simpl in *.
  - done.
  - apply Forall_cons in Hs2 as [Hy _].
    destruct Hr1 as [-> | (b & r' & -> & Hb)]; simplify_eq/=. by destruct Hy.
  - apply Forall_cons in Hs1 as [Hx _].
    destruct Hr2 as [-> | (b & r' & -> & Hb)]; simplify_eq/=. by destruct Hx.
  - apply Forall_cons in Hs1 as [_ Hs1].
    apply Forall_cons in Hs2 as [_ Hs2].
    simplify_eq/=. f_equal. eauto.
Qed.

Lemma span_before_all (stop : Node → Prop) (siblings span : list Node) :
  span_before stop siblings span →
  Forall (λ s, ¬ stop s) siblings → span = siblings.
Proof.
  intros (rest & -> & _ & [-> | (b & rest' & -> & Hb)]) Hall.
  - by rewrite app_nil_r.
  - apply Forall_app in Hall as [_ Hall].
    apply Forall_cons in Hall as [Hnb _]. by destruct Hnb.
Qed.

Lemma span_before_lookup (stop : Node → Prop) (siblings span : list Node)
    (i : nat) (s : Node) :
  span_before stop siblings span →
  siblings !! i = Some s →
  (∀ j t, (j <= i)%nat → siblings !! j = Some t → ¬ stop t) →
  span !! i = Some s.
Proof.
  intros (rest & -> & _ & Hrest) Hi Hbefore.
  destruct (decide (i < length span)%nat) as [Hlt | Hge].
  - by rewrite lookup_app_l in Hi.
  - destruct Hrest as [-> | (b & rest' & -> & Hb)].
    + by rewrite app_nil_r in Hi.
    + exfalso. apply (Hbefore (length span) b); [ lia | | done ].
      by rewrite list_lookup_middle.
Qed.

Lemma collect_siblings_spec (start_level : option Z)
    (siblings section_nodes : list Node) :
  ∃ span,
    span_before (loop_stops start_level) siblings span
    ∧ collect_siblings start_level siblings section_nodes
      = Return (section_nodes ++ span).
Proof.
  revert section_nodes.
  induction siblings as [| sibling rest IH]; intros acc.
  - exists []. split; [ | by rewrite app_nil_r ].
    exists []. repeat split; [ constructor | by left ].
  - assert (Hgo : ¬ loop_stops start_level sibling →
              ∃ span, span_before (loop_stops start_level) (sibling :: rest) span
                ∧ collect_siblings start_level rest (acc ++ [sibling])
                  = Return (acc ++ span)).
    { intros Hno. destruct (IH (acc ++ [sibling])) as (span & Hspan & ->).
      exists (sibling :: span). split; [ | by rewrite <- app_assoc ].
      destruct Hspan as (r & -> & Hs & Hr).
      exists r. repeat split; [ by constructor | done ]. }
    assert (Hbreak : loop_stops start_level sibling →
              span_before (loop_stops start_level) (sibling :: rest) []).
    { intros Hstop. exists (sibling :: rest).
      repeat split; [ constructor | right; eauto ]. }
    simpl. destruct sibling as [nm attrs cs | t]; simpl.
    + rewrite is_heading_name_level.
      destruct (heading_level_of_tag nm) as [k|] eqn:Hk.
      * rewrite bool_decide_eq_true_2 by eauto.
        pose proof (heading_level_of_tag_Some _ _ Hk) as (_ & _ & ->). simpl.
        destruct start_level as [L|]; simpl.
        -- destruct (Z.leb_spec k L) as [Hle | Hgt].
           ++ exists []. split; [ | by rewrite app_nil_r ].
              apply Hbreak. exists k. by rewrite <- Hk.
           ++ apply Hgo. intros (k' & Hk' & Hle).
              unfold heading_level in Hk'. simpl in Hk'.
              rewrite Hk in Hk'. simplify_eq. lia.
        -- exists []. split; [ | by rewrite app_nil_r ].
           apply Hbreak. exists k. by rewrite <- Hk.
      * rewrite bool_decide_eq_false_2 by (by intros [? ?]).
        apply Hgo. destruct start_level as [L|]; simpl.
        -- intros (k' & Hk' & _). unfold heading_level in Hk'. simpl in Hk'.
           congruence.
        -- intros [k' Hk']. unfold heading_level in Hk'. simpl in Hk'.
           congruence.
    + apply Hgo. destruct start_level as [L|]; simpl.
      * by intros (k' & Hk' & _).
      * by intros [k' Hk'].
Qed.

(** *** The start node *)

Lemma section_start_heading (target : PageElement) (L : Z) :
  heading_level (node target) = Some L →
  section_start target = Return (target, Some L).
Proof.
  intros H. unfold section_start. rewrite get_heading_level_total, H.
  reflexivity.
Qed.

Lemma section_start_promoted (target h : PageElement) (L : Z) :
  heading_level (node target) = None →
  nearest_heading_ancestor target h →
  heading_level (node h) = Some L →
  section_start target = Return (h, Some L).
Proof.
  intros Ht Hh HL. unfold section_start. rewrite get_heading_level_total, Ht.
  simpl. unfold find_parent.
  assert (first_match any_heading (parents target) = Some h) as ->.
  { apply first_match_Some.
    eapply first_with_iff; [ apply search_any_heading | exact Hh ]. }
  rewrite get_heading_level_total, HL. reflexivity.
Qed.

Lemma section_start_unbounded (target : PageElement) :
  heading_level (node target) = None →
  no_heading_ancestor target →
  section_start target = Return (target, None).
Proof.
  intros Ht Hnone. unfold section_start. rewrite get_heading_level_total, Ht.
  simpl. unfold find_parent.
  assert (first_match any_heading (parents target) = None) as ->.
  { apply first_match_None.
    eapply none_with_iff; [ apply search_any_heading | exact Hnone ]. }
  reflexivity.
Qed.

(** The start node is always found: lines 87-93 raise nothing. *)
Lemma section_start_total (target : PageElement) :
  ∃ start start_level, section_start target = Return (start, start_level).
Proof.
  unfold section_start. rewrite get_heading_level_total.
  destruct (heading_level (node target)) as [L|]; simpl; [ by eauto | ].
  destruct (find_parent target any_heading) as [h|]; [ | by eauto ].
  rewrite get_heading_level_total. simpl. by eauto.
Qed.

(** *** Anchor resolution *)

Lemma resolve_by_id (soup : PageElement) (anchor : string) (t : PageElement) :
  first_with (has_id anchor) (descendants soup) t →
  resolve_anchor soup anchor = Some t.
Proof.
  intros H. unfold resolve_anchor, find.
  assert (first_match (by_id anchor) (descendants soup) = Some t) as ->; [ | done ].
  apply first_match_Some. eapply first_with_iff; [ apply search_by_id | done ].
Qed.

Lemma find_by_id_None (soup : PageElement) (anchor : string) :
  none_with (has_id anchor) (descendants soup) →
  find soup (by_id anchor) = None.
Proof.
  intros H. apply first_match_None.
  eapply none_with_iff; [ apply search_by_id | done ].
Qed.

Lemma find_by_name_None (soup : PageElement) (anchor : string) :
  none_with (has_name anchor) (descendants soup) →
  find soup (by_name anchor) = None.
Proof.
  intros H. apply first_match_None.
  eapply none_with_iff; [ apply search_by_name | done ].
Qed.

Lemma resolve_by_name (soup : PageElement) (anchor : string) (t : PageElement) :
  none_with (has_id anchor) (descendants soup) →
  first_with (has_name anchor) (descendants soup) t →
  resolve_anchor soup anchor = Some t.
Proof.
  intros Hid H. unfold resolve_anchor. rewrite find_by_id_None by done.
  unfold find.
  assert (first_match (by_name anchor) (descendants soup) = Some t) as ->; [ | done ].
  apply first_match_Some. eapply first_with_iff; [ apply search_by_name | done ].
Qed.

Lemma resolve_by_href (soup : PageElement) (anchor : string) (t : PageElement) :
  none_with (has_id anchor) (descendants soup) →
  none_with (has_name anchor) (descendants soup) →
  first_with (links_to anchor) (descendants soup) t →
  resolve_anchor soup anchor = Some t.
Proof.
  intros Hid Hname H. unfold resolve_anchor.
  rewrite find_by_id_None, find_by_name_None by done. unfold find.
  apply first_match_Some. eapply first_with_iff; [ apply search_by_href | done ].
Qed.

Lemma resolve_nothing (soup : PageElement) (anchor : string) :
  none_with (has_id anchor) (descendants soup) →
  none_with (has_name anchor) (descendants soup) →
  none_with (links_to anchor) (descendants soup) →
  resolve_anchor soup anchor = None.
Proof.
  intros Hid Hname H. unfold resolve_anchor.
  rewrite find_by_id_None, find_by_name_None by done. unfold find.
  apply first_match_None. eapply none_with_iff; [ apply search_by_href | done ].
Qed.

Lemma first_with_id_exists (anchor : string) (l : list PageElement)
    (e : PageElement) :
  e ∈ l → has_id anchor (node e) → ∃ t, first_with (has_id anchor) l t.
Proof.
  intros Hin He.
  destruct (first_match (by_id anchor) l) as [t|] eqn:E.
  - exists t. eapply first_with_iff; [ symmetry; apply search_by_id | ].
    by apply first_match_Some.
  - apply first_match_None in E. unfold none_with in E.
    rewrite Forall_forall in E. destruct (E e Hin). by apply search_by_id.
Qed.

(** * The sectioning engine *)

Section SectioningClaims.

Variable html_parser : string → outcome (list Node).
Variable decode : Node → string.

(** The extraction on a resolved target: the span starts at the start node
    and runs to where the loop stops. *)
Lemma build_resolved (html anchor : string) (soup target start : PageElement)
    (start_level : option Z) :
  anchor ≠ EmptyString →
  BeautifulSoup html_parser html = Return soup →
  resolve_anchor soup anchor = Some target →
  section_start target = Return (start, start_level) →
  ∃ span,
    span_before (loop_stops start_level) (next_siblings start) span
    ∧ build_subsection_content html_parser decode html (Some anchor)
      = Return (Some (join_nodes decode (node start :: span))).
Proof.
  intros Hne Hsoup Hres Hstart.
  destruct (collect_siblings_spec start_level (next_siblings start)
              [node start]) as (span & Hspan & Hloop).
  exists span. split; [ done | ].
  destruct anchor as [| c anchor']; [ done | ].
  unfold build_subsection_content. rewrite Hsoup. simpl.
  rewrite Hres, Hstart. simpl. rewrite Hloop. reflexivity.
Qed.

Lemma build_unresolved (html anchor : string) (soup : PageElement) :
  BeautifulSoup html_parser html = Return soup →
  resolve_anchor soup anchor = None →
  build_subsection_content html_parser decode html (Some anchor)
  = Return None.
Proof.
  intros Hsoup Hres. unfold build_subsection_content.
  destruct anchor as [| c anchor']; [ done | ].
  rewrite Hsoup. simpl. by rewrite Hres.
Qed.

(** The extraction raises only what the parser raises. *)
Lemma build_raises_only_parser (html : string) (anchor : option string)
    (e : exn) :
  build_subsection_content html_parser decode html anchor = Raise e →
  html_parser html = Raise e.
Proof.
  unfold build_subsection_content, BeautifulSoup.
  destruct anchor as [[| c anchor'] |]; try discriminate.
  destruct (html_parser html) as [cs | e']; simpl; [ | congruence ].
  destruct (resolve_anchor _ _) as [target|]; [ | discriminate ].
  destruct (section_start_total target) as (start & lvl & ->). simpl.
  destruct (collect_siblings_spec lvl (next_siblings start) [node start])
    as (span & _ & ->).
  discriminate.
Qed.

(** C1 (as amended): for a resolved target that is not a heading and has no
    heading ancestor, the span is the target followed by its following
    siblings up to, but not including, the first one that is a heading of any
    level; when no following sibling is a heading, it is the target and all
    of its following siblings. *)
Theorem C1_unbounded_span_stops_at_first_heading
    (html anchor : string) (soup target : PageElement) :
  anchor ≠ EmptyString →
  BeautifulSoup html_parser html = Return soup →
  resolve_anchor soup anchor = Some target →
  ¬ is_heading (node target) →
  no_heading_ancestor target →
  ∃ span,
    span_before is_heading (next_siblings target) span
    ∧ build_subsection_content html_parser decode html (Some anchor)
      = Return (Some (join_nodes decode (node target :: span)))
    ∧ (Forall (λ s, ¬ is_heading s) (next_siblings target) →
       build_subsection_content html_parser decode html (Some anchor)
       = Return (Some (join_nodes decode (node target :: next_siblings target)))).
Proof.
  intros Hne Hsoup Hres Hnh Hanc.
  assert (heading_level (node target) = None) as Hlvl.
  { destruct (heading_level (node target)) eqn:E; [ | done ].
    destruct Hnh. unfold is_heading. rewrite E. eauto. }
  destruct (build_resolved html anchor soup target target None)
    as (span & Hspan & Hbuild); auto using section_start_unbounded.
  exists span. repeat split; [ done | done | ].
  intros Hall. rewrite Hbuild.
  by rewrite (span_before_all _ _ _ Hspan Hall).
Qed.

(** C3: for a target that is not a heading but has a heading among its
    ancestors, the start node is the nearest such ancestor and the start
    level is the digit of that ancestor's tag name, an integer from 1 to 6. *)
Theorem C3_promotion_to_nearest_heading (target h : PageElement) :
  ¬ is_heading (node target) →
  nearest_heading_ancestor target h →
  ∃ (nm : string) (L : Z),
    section_start target = Return (h, Some L)
    ∧ node_name (node h) = Some nm
    ∧ nm ∈ heading_levels
    ∧ level_of_name nm = Return L
    ∧ heading_level (node h) = Some L
    ∧ 1 <= L <= 6.
Proof.
  intros Hnh Hnear.
  assert (heading_level (node target) = None) as Hlvl.
  { destruct (heading_level (node target)) eqn:E; [ | done ].
    destruct Hnh. unfold is_heading. rewrite E. eauto. }
  pose proof Hnear as (pre & post & _ & [L HL] & _).
  unfold heading_level in HL.
  destruct (node_name (node h)) as [nm|] eqn:Hnm; [ simpl in HL | done ].
  apply heading_level_of_tag_Some in HL as HL'. destruct HL' as (Hin & Hr & Hlev).
  assert (heading_level (node h) = Some L) as Hh.
  { unfold heading_level. by rewrite Hnm. }
  exists nm, L. repeat split; try done; try lia.
  by apply section_start_promoted.
Qed.

(** C4: resolution returns the first element, in document order, whose id is
    the anchor; failing that, the first whose name attribute is the anchor;
    failing that, the first [a] element whose href is ["#" + anchor], that
    element itself; and nothing otherwise.  In particular, when some element
    has the id and some element has the name, the result has the id. *)
Theorem C4_resolution_order (soup : PageElement) (anchor : string) :
  let D := descendants soup in
  (∀ t, first_with (has_id anchor) D t → resolve_anchor soup anchor = Some t)
  ∧ (∀ t, none_with (has_id anchor) D →
          first_with (has_name anchor) D t →
          resolve_anchor soup anchor = Some t)
  ∧ (∀ t, none_with (has_id anchor) D →
          none_with (has_name anchor) D →
          first_with (links_to anchor) D t →
          resolve_anchor soup anchor = Some t
          ∧ node_name (node t) = Some "a"
          ∧ node_attr (node t) "href" = Some ("#" +:+ anchor))
  ∧ (none_with (has_id anchor) D →
     none_with (has_name anchor) D →
     none_with (links_to anchor) D →
     resolve_anchor soup anchor = None)
  ∧ (∀ e1 e2, e1 ∈ D → e2 ∈ D →
       has_id anchor (node e1) → has_name anchor (node e2) →
       ∃ t, resolve_anchor soup anchor = Some t
            ∧ first_with (has_id anchor) D t).
Proof.
  intros D. split; [ | split; [ | split; [ | split ] ] ].
  - apply resolve_by_id.
  - intros t. apply resolve_by_name.
  - intros t Hid Hname Ht. split; [ by apply resolve_by_href | ].
    by destruct Ht as (_ & _ & _ & Hlink & _).
  - apply resolve_nothing.
  - intros e1 e2 H1 _ Hid _.
    destruct (first_with_id_exists anchor D e1 H1 Hid) as [t Ht].
    exists t. split; [ by apply resolve_by_id | done ].
Qed.

End SectioningClaims.

(** * The book cache *)

Lemma cache_get_head (key : string) (v : option Book)
    (l : list (string * option Book)) :
  cache_get key ((key, v) :: l) = Some v.
Proof. simpl. by rewrite String.eqb_refl. Qed.

Lemma load_book_cached_hit (disk : Disk) (folder_name : string)
    (st : ServerState) (result : option Book) :
  cache_get folder_name (lru st) = Some result →
  (load_book_cached disk folder_name st).1 = result
  ∧ loader_calls (load_book_cached disk folder_name st).2 = loader_calls st
  ∧ cache_get folder_name (lru (load_book_cached disk folder_name st).2)
    = Some result.
Proof.
  intros H. unfold load_book_cached. rewrite H. simpl.
  by rewrite String.eqb_refl.
Qed.

Lemma load_book_cached_miss (disk : Disk) (folder_name : string)
    (st : ServerState) :
  cache_get folder_name (lru st) = None →
  (load_book_cached disk folder_name st).1 = load_book disk folder_name
  ∧ loader_calls (load_book_cached disk folder_name st).2
    = loader_calls st ++ [folder_name]
  ∧ cache_get folder_name (lru (load_book_cached disk folder_name st).2)
    = Some (load_book disk folder_name).
Proof.
  intros H. unfold load_book_cached. rewrite H. simpl.
  by rewrite String.eqb_refl.
Qed.

(** Whatever a lookup returns is what the cache holds for the key afterwards. *)
Lemma load_book_cached_stored (disk : Disk) (folder_name : string)
    (st : ServerState) :
  cache_get folder_name (lru (load_book_cached disk folder_name st).2)
  = Some (load_book_cached disk folder_name st).1.
Proof.
  destruct (cache_get folder_name (lru st)) as [r|] eqn:E.
  - destruct (load_book_cached_hit disk _ _ _ E) as (-> & _ & ->). done.
  - destruct (load_book_cached_miss disk _ _ E) as (-> & _ & ->). done.
Qed.

Lemma cache_remove_length (key : string) (l : list (string * option Book)) :
  (length (cache_remove key l) <= length l)%nat.
Proof.
  induction l as [| [k v] l IH]; simpl; [ lia | ].
  destruct (String.eqb k key); simpl; lia.
Qed.

Lemma cache_remove_shrinks (key : string) (l : list (string * option Book))
    (v : option Book) :
  cache_get key l = Some v → (length (cache_remove key l) < length l)%nat.
Proof.
  induction l as [| [k w] l IH]; simpl; [ discriminate | ].
  destruct (String.eqb k key); simpl.
  - intros _. pose proof (cache_remove_length key l). lia.
  - intros H. apply IH in H. lia.
Qed.

Lemma removelast_shorter {A : Type} (l : list A) :
  (length (removelast l) = length l - 1)%nat.
Proof.
  induction l as [| x [| y l] IH]; [ done | done | ].
  change (removelast (x :: y :: l)) with (x :: removelast (y :: l)).
  simpl in *. lia.
Qed.

(** The cache never holds more than [maxsize] entries. *)
Lemma lru_bounded (disk : Disk) (folder_name : string) (st : ServerState) :
  (length (lru st) <= maxsize)%nat →
  (length (lru (load_book_cached disk folder_name st).2) <= maxsize)%nat.
Proof.
  intros Hle. unfold load_book_cached.
  destruct (cache_get folder_name (lru st)) as [r|] eqn:E.
  - simpl. apply cache_remove_shrinks in E. lia.
  - destruct (Nat.leb_spec maxsize (length (lru st))) as [Hfull | Hroom];
      unfold maxsize in *; simpl.
    + rewrite removelast_shorter. lia.
    + lia.
Qed.

(** C5 (as amended): after a lookup that missed the cache and whose loader
    failed, the absence is stored in the cache as the result for that
    identifier; the next lookup of the same identifier returns the remembered
    absence and does not run the loader, whatever the disk holds by then. *)
Theorem C5_loader_failure_is_cached (disk disk' : Disk) (folder_name : string)
    (st : ServerState) :
  cache_get folder_name (lru st) = None →
  load_book disk folder_name = None →
  let first := load_book_cached disk folder_name st in
  let second := load_book_cached disk' folder_name first.2 in
  first.1 = None
  ∧ loader_calls first.2 = loader_calls st ++ [folder_name]
  ∧ cache_get folder_name (lru first.2) = Some None
  ∧ second.1 = None
  ∧ loader_calls second.2 = loader_calls first.2
  ∧ cache_get folder_name (lru second.2) = Some None.
Proof.
  intros Hmiss Hfail first second.
  destruct (load_book_cached_miss disk _ _ Hmiss) as (H1 & H2 & H3).
  rewrite Hfail in H1, H3. fold first in H1, H2, H3.
  destruct (load_book_cached_hit disk' _ _ _ H3) as (H4 & H5 & H6).
  fold second in H4, H5, H6. done.
Qed.

(** * Navigation *)

(** C7: [prev_idx i] is [i - 1] when [i > 0] and None otherwise; [next_idx i
    N] is [i + 1] when [i < N - 1] and None otherwise; so [prev_idx 0] and
    [next_idx (N - 1) N] are None, and for [0 < i < N - 1] both are defined
    and the next of the previous is [i]. *)
Theorem C7_navigation (N i : Z) :
  (0 < i → prev_idx i = Some (i - 1))
  ∧ (i <= 0 → prev_idx i = None)
  ∧ (i < N - 1 → next_idx i N = Some (i + 1))
  ∧ (N - 1 <= i → next_idx i N = None)
  ∧ prev_idx 0 = None
  ∧ next_idx (N - 1) N = None
  ∧ (0 < i < N - 1 →
     ∃ p n, prev_idx i = Some p ∧ next_idx i N = Some n
            ∧ next_idx p N = Some i).
Proof.
  unfold prev_idx, next_idx.
  repeat split.
  - intros H. by rewrite (proj2 (Z.ltb_lt 0 i)) by lia.
  - intros H. by rewrite (proj2 (Z.ltb_ge 0 i)) by lia.
  - intros H. by rewrite (proj2 (Z.ltb_lt i (N - 1))) by lia.
  - intros H. by rewrite (proj2 (Z.ltb_ge i (N - 1))) by lia.
  - by rewrite Z.ltb_irrefl.
  - intros [H0 HN]. exists (i - 1), (i + 1).
    rewrite (proj2 (Z.ltb_lt 0 i)) by lia.
    rewrite (proj2 (Z.ltb_lt i (N - 1))) by lia.
    rewrite (proj2 (Z.ltb_lt (i - 1) (N - 1))) by lia.
    repeat split. f_equal. lia.
Qed.

(** * The reader route *)

Lemma list_index_lookup {A : Type} (l : list A) (i : nat) (x : A) :
  l !! i = Some x → list_index l (Z.of_nat i) = Return x.
Proof.
  intros H. pose proof (lookup_lt_Some _ _ _ H) as Hlt.
  unfold list_index.
  rewrite (proj2 (Z.ltb_ge (Z.of_nat i) 0)) by lia.
  rewrite (proj2 (Z.ltb_ge (Z.of_nat i) 0)) by lia.
  rewrite (proj2 (Z.leb_gt (Z.of_nat (length l)) (Z.of_nat i))) by lia.
  simpl. by rewrite Nat2Z.id, H.
Qed.

Section ReaderClaims.

Variable html_parser : string → outcome (list Node).
Variable decode : Node → string.

(** What the route hands to the template for a chapter in range. *)
Lemma read_chapter_serves (disk : Disk) (request : Request) (book_id : string)
    (i : nat) (st : ServerState) (book : Book) (ch : ChapterContent.t)
    (sub : option string) :
  (load_book_cached disk book_id st).1 = Some book →
  spine book !! i = Some ch →
  build_subsection_content html_parser decode (ChapterContent.content ch)
    (query_params request !! "anchor") = Return sub →
  read_chapter html_parser decode disk request book_id (Z.of_nat i) st
  = (Return (TemplateResponse "reader.html"
       {| ctx_book := book;
          ctx_current_chapter :=
            match sub with Some c => narrowed ch c | None => ch end;
          ctx_chapter_index := Z.of_nat i;
          ctx_book_id := book_id;
          ctx_prev_idx := prev_idx (Z.of_nat i);
          ctx_next_idx := next_idx (Z.of_nat i) (Z.of_nat (length (spine book)));
          ctx_anchor := query_params request !! "anchor";
          ctx_is_subsection :=
            match sub with Some _ => true | None => false end |}),
     (load_book_cached disk book_id st).2).
Proof.
  intros Hbook Hch Hsub. unfold read_chapter.
  destruct (load_book_cached disk book_id st) as [r st'] eqn:E.
  simpl in Hbook. subst r. simpl.
  pose proof (lookup_lt_Some _ _ _ Hch) as Hlt.
  rewrite (proj2 (Z.ltb_ge (Z.of_nat i) 0)) by lia.
  rewrite (proj2 (Z.leb_gt (Z.of_nat (length (spine book))) (Z.of_nat i)))
    by lia.
  simpl. rewrite (list_index_lookup _ _ _ Hch). simpl.
  rewrite Hsub. reflexivity.
Qed.

(** X1: up to the call of the template renderer, and with a pickle that
    holds a [Book], the steps of the route raise the two 404s and what the
    parser raises, nothing else: the spine is never indexed out of range and
    the extraction adds no exception of its own. *)
Lemma read_chapter_exceptions (disk : Disk) (request : Request)
    (book_id : string) (chapter_index : Z) (st : ServerState) (e : exn) :
  (read_chapter html_parser decode disk request book_id chapter_index st).1
  = Raise e →
  e = HTTPException 404 "Book not found"
  ∨ e = HTTPException 404 "Chapter not found"
  ∨ ∃ html, html_parser html = Raise e.
Proof.
  unfold read_chapter.
  destruct (load_book_cached disk book_id st) as [[book|] st']; simpl;
    [ | intros [= <-]; by left ].
  destruct (Z.ltb_spec chapter_index 0) as [Hneg | Hpos]; simpl;
    [ intros [= <-]; right; by left | ].
  destruct (Z.leb_spec (Z.of_nat (length (spine book))) chapter_index)
    as [Hbig | Hin]; simpl; [ intros [= <-]; right; by left | ].
  destruct (lookup_lt_is_Some_2 (spine book) (Z.to_nat chapter_index))
    as [ch Hch]; [ lia | ].
  rewrite <- (Z2Nat.id chapter_index) by lia.
  rewrite (list_index_lookup _ _ _ Hch). simpl.
  destruct (build_subsection_content _ _ _ _) as [sub | e'] eqn:Hsub; simpl;
    [ discriminate | ].
  intros [= <-]. right; right.
  eexists. eapply build_raises_only_parser. exact Hsub.
Qed.


(** C8: for a loaded book and a chapter index that is negative or at least
    the length of the spine, the route raises the 404 [HTTPException]
    "Chapter not found"; it neither indexes the spine nor renders. *)
Theorem C8_out_of_range_is_not_found (disk : Disk) (request : Request)
    (book_id : string) (chapter_index : Z) (st : ServerState) (book : Book) :
  (load_book_cached disk book_id st).1 = Some book →
  chapter_index < 0 ∨ Z.of_nat (length (spine book)) <= chapter_index →
  read_chapter html_parser decode disk request book_id chapter_index st
  = (Raise (HTTPException 404 "Chapter not found"),
     (load_book_cached disk book_id st).2).
Proof.
  intros Hbook Hrange. unfold read_chapter.
  destruct (load_book_cached disk book_id st) as [r st'] eqn:E.
  simpl in Hbook. subst r. simpl.
  destruct Hrange as [Hneg | Hbig].
  - by rewrite (proj2 (Z.ltb_lt chapter_index 0)) by lia.
  - rewrite (proj2 (Z.leb_le _ chapter_index)) by lia.
    by rewrite orb_true_r.
Qed.

(** C9: when the extraction succeeds, the chapter handed to the template has
    the id, href, title, text and order of the original and the subsection
    as its content; the book handed over and the book in the cache are the
    loaded book, whose spine still holds the original chapter, and a later
    read of the same chapter without an anchor serves that original. *)
Theorem C9_copy_on_narrow (disk : Disk) (request : Request) (book_id : string)
    (i : nat) (st : ServerState) (book : Book) (ch : ChapterContent.t)
    (sub : string) :
  (load_book_cached disk book_id st).1 = Some book →
  spine book !! i = Some ch →
  build_subsection_content html_parser decode (ChapterContent.content ch)
    (query_params request !! "anchor") = Return (Some sub) →
  let out :=
    read_chapter html_parser decode disk request book_id (Z.of_nat i) st in
  ∃ ctx,
    out.1 = Return (TemplateResponse "reader.html" ctx)
    ∧ ctx_is_subsection ctx = true
    ∧ ChapterContent.id (ctx_current_chapter ctx) = ChapterContent.id ch
    ∧ ChapterContent.href (ctx_current_chapter ctx) = ChapterContent.href ch
    ∧ ChapterContent.title (ctx_current_chapter ctx) = ChapterContent.title ch
    ∧ ChapterContent.text (ctx_current_chapter ctx) = ChapterContent.text ch
    ∧ ChapterContent.order (ctx_current_chapter ctx) = ChapterContent.order ch
    ∧ ChapterContent.content (ctx_current_chapter ctx) = sub
    ∧ ctx_book ctx = book
    ∧ spine (ctx_book ctx) !! i = Some ch
    ∧ cache_get book_id (lru out.2) = Some (Some book)
    ∧ (∀ disk' request',
         query_params request' !! "anchor" = None →
         ∃ ctx',
           (read_chapter html_parser decode disk' request' book_id
              (Z.of_nat i) out.2).1
           = Return (TemplateResponse "reader.html" ctx')
           ∧ ctx_current_chapter ctx' = ch).
Proof.
  intros Hbook Hch Hsub out. subst out.
  rewrite (read_chapter_serves _ _ _ _ _ _ _ _ Hbook Hch Hsub). simpl.
  pose proof (load_book_cached_stored disk book_id st) as Hstored.
  rewrite Hbook in Hstored.
  eexists. split; [ reflexivity | ]. simpl.
  repeat (split; [ done | ]).
  intros disk' request' Hnone.
  destruct (load_book_cached_hit disk' _ _ _ Hstored) as (Hagain & _ & _).
  assert (build_subsection_content html_parser decode
            (ChapterContent.content ch) (query_params request' !! "anchor")
          = Return None) as Hfull by (by rewrite Hnone).
  rewrite (read_chapter_serves _ _ _ _ _ _ _ _ Hagain Hch Hfull).
  eexists. split; reflexivity.
Qed.

(** C10: with the empty string as anchor the extraction returns None, as it
    does with no anchor, and the route hands the original chapter to the
    template. *)
Theorem C10_empty_anchor_is_absent :
  (∀ html,
     build_subsection_content html_parser decode html (Some EmptyString)
     = Return None
     ∧ build_subsection_content html_parser decode html (Some EmptyString)
       = build_subsection_content html_parser decode html None)
  ∧ (∀ disk request book_id (i : nat) st book ch,
       (load_book_cached disk book_id st).1 = Some book →
       spine book !! i = Some ch →
       query_params request !! "anchor" = Some EmptyString →
       ∃ ctx,
         (read_chapter html_parser decode disk request book_id (Z.of_nat i) st).1
         = Return (TemplateResponse "reader.html" ctx)
         ∧ ctx_current_chapter ctx = ch
         ∧ ctx_is_subsection ctx = false).
Proof.
  split; [ by intros html | ].
  intros disk request book_id i st book ch Hbook Hch Hanchor.
  assert (build_subsection_content html_parser decode
            (ChapterContent.content ch) (query_params request !! "anchor")
          = Return None) as Hfull by (by rewrite Hanchor).
  rewrite (read_chapter_serves _ _ _ _ _ _ _ _ Hbook Hch Hfull).
  eexists. split; [ reflexivity | done ].
Qed.

End ReaderClaims.

(** * Checks on the samples *)

Lemma first_with_check (s : SoupStrainer) (P : Node → Prop)
    (l : list PageElement) (e : PageElement) :
  (∀ n, search_tag s n = true ↔ P n) →
  first_match s l = Some e → first_with P l e.
Proof.
  intros HP H. eapply first_with_iff; [ intros n; symmetry; apply HP | ].
  by apply first_match_Some.
Qed.

Lemma none_with_check (s : SoupStrainer) (P : Node → Prop)
    (l : list PageElement) :
  (∀ n, search_tag s n = true ↔ P n) →
  first_match s l = None → none_with P l.
Proof.
  intros HP H. eapply none_with_iff; [ intros n; symmetry; apply HP | ].
  by apply first_match_None.
Qed.

Lemma not_heading_check (n : Node) :
  search_tag any_heading n = false → ¬ is_heading n.
Proof. intros H Hn. apply search_any_heading in Hn. congruence. Qed.

(** On the flat sample the paragraph with id [x] is no heading and has no
    heading ancestor, two siblings follow it, and the subsection is the
    paragraph alone: the heading that follows ends the span. *)
Lemma C1_counterexample :
  let soup := soup_of flat_doc in
  let target := nth_descendant flat_doc 0 in
  BeautifulSoup sample_parser flat_html = Return soup
  ∧ resolve_anchor soup "x" = Some target
  ∧ node target = flat_par
  ∧ ¬ is_heading (node target)
  ∧ no_heading_ancestor target
  ∧ next_siblings target = [flat_h2; flat_tail]
  ∧ build_subsection_content sample_parser plain_decode flat_html (Some "x")
    = Return (Some (plain_decode flat_par))
  ∧ build_subsection_content sample_parser plain_decode flat_html (Some "x")
    ≠ Return (Some (join_nodes plain_decode
                      (node target :: next_siblings target))).
Proof.
  repeat split; try (vm_compute; reflexivity).
  - apply not_heading_check. vm_compute. reflexivity.
  - apply (none_with_check any_heading); [ apply search_any_heading | ].
    vm_compute. reflexivity.
  - vm_compute. discriminate.
Qed.

(** The flat sample, anchor [x]. *)
Lemma C1_witness :
  ∃ span,
    span_before is_heading (next_siblings (nth_descendant flat_doc 0)) span
    ∧ build_subsection_content sample_parser plain_decode flat_html (Some "x")
      = Return (Some (join_nodes plain_decode
                        (node (nth_descendant flat_doc 0) :: span)))
    ∧ (Forall (λ s, ¬ is_heading s) (next_siblings (nth_descendant flat_doc 0)) →
       build_subsection_content sample_parser plain_decode flat_html (Some "x")
       = Return (Some (join_nodes plain_decode
                         (node (nth_descendant flat_doc 0)
                            :: next_siblings (nth_descendant flat_doc 0))))).
Proof.
  apply (C1_unbounded_span_stops_at_first_heading sample_parser plain_decode
           flat_html "x" (soup_of flat_doc) (nth_descendant flat_doc 0)).
  - discriminate.
  - vm_compute. reflexivity.
  - vm_compute. reflexivity.
  - apply not_heading_check. vm_compute. reflexivity.
  - apply (none_with_check any_heading); [ apply search_any_heading | ].
    vm_compute. reflexivity.
Defined.

(** In the nesting sample the span with id [s] sits inside the first
    heading, which therefore owns it. *)
Lemma nest_span_owner :
  nearest_heading_ancestor (nth_descendant nest_doc 2)
    (nth_descendant nest_doc 0).
Proof.
  apply (first_with_check any_heading); [ apply search_any_heading | ].
  vm_compute. reflexivity.
Qed.

(** The nesting sample: the span with id [s] is promoted to the first heading. *)
Lemma C3_witness :
  ∃ (nm : string) (L : Z),
    section_start (nth_descendant nest_doc 2)
    = Return (nth_descendant nest_doc 0, Some L)
    ∧ node_name (node (nth_descendant nest_doc 0)) = Some nm
    ∧ nm ∈ heading_levels
    ∧ level_of_name nm = Return L
    ∧ heading_level (node (nth_descendant nest_doc 0)) = Some L
    ∧ 1 <= L <= 6.
Proof.
  apply (C3_promotion_to_nearest_heading (nth_descendant nest_doc 2)
           (nth_descendant nest_doc 0)).
  - apply not_heading_check. vm_compute. reflexivity.
  - exact nest_span_owner.
Defined.

(** The nesting sample: [k] is the name of a link and the id of a later
    paragraph; [n] is met only as the target of a link. *)
Lemma C4_witness :
  (∃ t, resolve_anchor (soup_of nest_doc) "k" = Some t
        ∧ first_with (has_id "k") (descendants (soup_of nest_doc)) t)
  ∧ (resolve_anchor (soup_of nest_doc) "n" = Some (nth_descendant nest_doc 8)
     ∧ node_name (node (nth_descendant nest_doc 8)) = Some "a"
     ∧ node_attr (node (nth_descendant nest_doc 8)) "href" = Some ("#" +:+ "n")).
Proof.
  pose proof (C4_resolution_order (soup_of nest_doc) "k")
    as (_ & _ & _ & _ & Hprio).
  pose proof (C4_resolution_order (soup_of nest_doc) "n")
    as (_ & _ & Hlink & _ & _).
  split.
  - apply (Hprio (nth_descendant nest_doc 12) (nth_descendant nest_doc 9)).
    + apply list_elem_of_lookup. exists 12%nat. vm_compute. reflexivity.
    + apply list_elem_of_lookup. exists 9%nat. vm_compute. reflexivity.
    + vm_compute. reflexivity.
    + vm_compute. reflexivity.
  - apply Hlink.
    + apply (none_with_check (by_id "n")); [ apply search_by_id | ].
      vm_compute. reflexivity.
    + apply (none_with_check (by_name "n")); [ apply search_by_name | ].
      vm_compute. reflexivity.
    + apply (first_with_check (by_href "n")); [ apply search_by_href | ].
      vm_compute. reflexivity.
Defined.

(** The nesting example of the specification, run on the sample. *)
Example nesting_from_A :
  build_subsection_content sample_parser plain_decode nest_html (Some "A")
  = Return (Some (join_nodes plain_decode [nest_hA; nest_p1; nest_hB; nest_p2])).
Proof. vm_compute. reflexivity. Qed.

Example nesting_from_B :
  build_subsection_content sample_parser plain_decode nest_html (Some "B")
  = Return (Some (join_nodes plain_decode [nest_hB; nest_p2])).
Proof. vm_compute. reflexivity. Qed.

Example id_before_name :
  resolve_anchor (soup_of nest_doc) "k" = Some (nth_descendant nest_doc 12)
  ∧ node (nth_descendant nest_doc 12) = nest_p3
  ∧ has_name "k" (node (nth_descendant nest_doc 9)).
Proof. repeat split; vm_compute; reflexivity. Qed.

(** A book that is missing at the first lookup and present at the second:
    the loader runs once, and the second lookup still answers None. *)
Lemma C5_counterexample :
  let first := load_book_cached no_books "sample_data" fresh_server in
  let second := load_book_cached one_book "sample_data" first.2 in
  load_book no_books "sample_data" = None
  ∧ first.1 = None
  ∧ loader_calls first.2 = ["sample_data"]
  ∧ load_book one_book "sample_data" = Some sample_book
  ∧ second.1 = None
  ∧ loader_calls second.2 = ["sample_data"].
Proof. repeat split. Qed.

(** The same two lookups. *)
Lemma C5_witness :
  let first := load_book_cached no_books "sample_data" fresh_server in
  let second := load_book_cached one_book "sample_data" first.2 in
  first.1 = None
  ∧ loader_calls first.2 = loader_calls fresh_server ++ ["sample_data"]
  ∧ cache_get "sample_data" (lru first.2) = Some None
  ∧ second.1 = None
  ∧ loader_calls second.2 = loader_calls first.2
  ∧ cache_get "sample_data" (lru second.2) = Some None.
Proof.
  apply (C5_loader_failure_is_cached no_books one_book "sample_data"
           fresh_server); reflexivity.
Defined.

(** A spine of five chapters, at index 2. *)
Lemma C7_witness :
  (0 < 2 → prev_idx 2 = Some (2 - 1))
  ∧ (2 <= 0 → prev_idx 2 = None)
  ∧ (2 < 5 - 1 → next_idx 2 5 = Some (2 + 1))
  ∧ (5 - 1 <= 2 → next_idx 2 5 = None)
  ∧ prev_idx 0 = None
  ∧ next_idx (5 - 1) 5 = None
  ∧ ∃ p n, prev_idx 2 = Some p ∧ next_idx 2 5 = Some n ∧ next_idx p 5 = Some 2.
Proof.
  pose proof (C7_navigation 5 2) as (H1 & H2 & H3 & H4 & H5 & H6 & H7).
  repeat (split; [ assumption | ]).
  apply H7. lia.
Defined.


(** The sample book has three chapters: index 3 and index -1. *)
Lemma C8_witness :
  read_chapter sample_parser plain_decode one_book (request_with None)
    "sample_data" 3 fresh_server
  = (Raise (HTTPException 404 "Chapter not found"),
     (load_book_cached one_book "sample_data" fresh_server).2)
  ∧ read_chapter sample_parser plain_decode one_book (request_with None)
      "sample_data" (-1) fresh_server
    = (Raise (HTTPException 404 "Chapter not found"),
       (load_book_cached one_book "sample_data" fresh_server).2).
Proof.
  split.
  - apply (C8_out_of_range_is_not_found sample_parser plain_decode one_book
             (request_with None) "sample_data" 3 fresh_server sample_book);
      [ reflexivity | right; simpl; lia ].
  - apply (C8_out_of_range_is_not_found sample_parser plain_decode one_book
             (request_with None) "sample_data" (-1) fresh_server sample_book);
      [ reflexivity | left; lia ].
Defined.

(** Chapter 1 of the sample book, narrowed to the section of heading [B]. *)
Lemma C9_witness :
  let ch := chapter "c1" nest_html 1 in
  let sub := join_nodes plain_decode [nest_hB; nest_p2] in
  let out :=
    read_chapter sample_parser plain_decode one_book (request_with (Some "B"))
      "sample_data" (Z.of_nat 1) fresh_server in
  ∃ ctx,
    out.1 = Return (TemplateResponse "reader.html" ctx)
    ∧ ctx_is_subsection ctx = true
    ∧ ChapterContent.id (ctx_current_chapter ctx) = ChapterContent.id ch
    ∧ ChapterContent.href (ctx_current_chapter ctx) = ChapterContent.href ch
    ∧ ChapterContent.title (ctx_current_chapter ctx) = ChapterContent.title ch
    ∧ ChapterContent.text (ctx_current_chapter ctx) = ChapterContent.text ch
    ∧ ChapterContent.order (ctx_current_chapter ctx) = ChapterContent.order ch
    ∧ ChapterContent.content (ctx_current_chapter ctx) = sub
    ∧ ctx_book ctx = sample_book
    ∧ spine (ctx_book ctx) !! 1%nat = Some ch
    ∧ cache_get "sample_data" (lru out.2) = Some (Some sample_book)
    ∧ (∀ disk' request',
         query_params request' !! "anchor" = None →
         ∃ ctx',
           (read_chapter sample_parser plain_decode disk' request'
              "sample_data" (Z.of_nat 1) out.2).1
           = Return (TemplateResponse "reader.html" ctx')
           ∧ ctx_current_chapter ctx' = ch).
Proof.
  intros ch sub.
  apply (C9_copy_on_narrow sample_parser plain_decode one_book
           (request_with (Some "B")) "sample_data" 1%nat fresh_server
           sample_book ch sub); vm_compute; reflexivity.
Defined.

(** Chapter 1 of the sample book, read with an empty anchor. *)
Lemma C10_witness :
  build_subsection_content sample_parser plain_decode nest_html
    (Some EmptyString) = Return None
  ∧ ∃ ctx,
      (read_chapter sample_parser plain_decode one_book
         (request_with (Some EmptyString)) "sample_data" (Z.of_nat 1)
         fresh_server).1
      = Return (TemplateResponse "reader.html" ctx)
      ∧ ctx_current_chapter ctx = chapter "c1" nest_html 1
      ∧ ctx_is_subsection ctx = false.
Proof.
  pose proof (C10_empty_anchor_is_absent sample_parser plain_decode)
    as (Hempty & Hcaller).
  split.
  - apply Hempty.
  - apply (Hcaller one_book (request_with (Some EmptyString)) "sample_data"
             1%nat fresh_server sample_book (chapter "c1" nest_html 1));
      vm_compute; reflexivity.
Defined.

(** The remembered absence lasts until the entry is evicted: nine lookups of
    other books leave it in place, the tenth pushes it out and the loader
    runs again. *)
Example absence_survives_nine_lookups :
  let st1 := (load_book_cached no_books "sample_data" fresh_server).2 in
  let st2 := lookups no_books nine_others st1 in
  (load_book_cached one_book "sample_data" st2).1 = None
  ∧ loader_calls (load_book_cached one_book "sample_data" st2).2
    = loader_calls st2.
Proof. split; vm_compute; reflexivity. Qed.

Example absence_evicted_by_ten_lookups :
  let st1 := (load_book_cached no_books "sample_data" fresh_server).2 in
  let st2 := lookups no_books (nine_others ++ ["b10"]) st1 in
  (load_book_cached one_book "sample_data" st2).1 = Some sample_book
  ∧ loader_calls (load_book_cached one_book "sample_data" st2).2
    = loader_calls st2 ++ ["sample_data"].
Proof. split; vm_compute; reflexivity. Qed.

(** * More on the book cache *)

Lemma cache_get_None (key : string) (l : list (string * option Book)) :
  cache_get key l = None ↔ key ∉ l.*1.
Proof.
  induction l as [| [k v] l IH]; simpl.
  - split; [ intros _; apply not_elem_of_nil | done ].
  - rewrite not_elem_of_cons. destruct (String.eqb_spec k key) as [-> | Hne].
    + split; [ discriminate | by intros [? _] ].
    + rewrite IH. split; [ intros H; split; [ congruence | done ] | tauto ].
Qed.

Lemma cache_get_Some_key (key : string) (l : list (string * option Book))
    (v : option Book) :
  cache_get key l = Some v → key ∈ l.*1.
Proof.
  intros H. destruct (decide (key ∈ l.*1)) as [| Hn]; [ done | ].
  apply cache_get_None in Hn. congruence.
Qed.

Lemma cache_remove_other (key key' : string)
    (l : list (string * option Book)) :
  key' ≠ key → cache_get key' (cache_remove key l) = cache_get key' l.
Proof.
  intros Hne. induction l as [| [k v] l IH]; simpl; [ done | ].
  destruct (String.eqb_spec k key) as [-> | Hk]; simpl.
  - rewrite IH. destruct (String.eqb_spec key key'); [ congruence | done ].
  - by rewrite IH.
Qed.

Lemma cache_remove_sublist (key : string) (l : list (string * option Book)) :
  cache_remove key l `sublist_of` l.
Proof.
  induction l as [| [k v] l IH]; simpl; [ constructor | ].
  destruct (String.eqb k key); by constructor.
Qed.

Lemma cache_remove_gone (key : string) (l : list (string * option Book)) :
  key ∉ (cache_remove key l).*1.
Proof.
  induction l as [| [k v] l IH]; simpl; [ apply not_elem_of_nil | ].
  destruct (String.eqb_spec k key) as [-> | Hk]; simpl; [ done | ].
  rewrite not_elem_of_cons. split; [ congruence | done ].
Qed.

Lemma removelast_sublist {A : Type} (l : list A) :
  removelast l `sublist_of` l.
Proof.
  induction l as [| x [| y l] IH]; [ constructor | repeat constructor | ].
  change (removelast (x :: y :: l)) with (x :: removelast (y :: l)).
  by constructor.
Qed.

Lemma cache_get_removelast (key : string) (l : list (string * option Book))
    (v : option Book) :
  cache_get key (removelast l) = Some v → cache_get key l = Some v.
Proof.
  induction l as [| [k w] [| y l] IH]; [ done | done | ].
  change (removelast ((k, w) :: y :: l)) with ((k, w) :: removelast (y :: l)).
  simpl cache_get at 1. intros H.
  change (cache_get key ((k, w) :: y :: l))
    with (if String.eqb k key then Some w else cache_get key (y :: l)).
  destruct (String.eqb k key); [ done | by apply IH ].
Qed.

(** X2: every lookup keeps the cache well formed: no key is held twice and
    there are at most ten entries. *)
Theorem lookup_keeps_cache_ok (disk : Disk) (folder_name : string)
    (st : ServerState) :
  cache_ok st → cache_ok (load_book_cached disk folder_name st).2.
Proof.
  intros [Hnodup Hlen]. split; [ | by apply lru_bounded ].
  unfold cache_keys in *. unfold load_book_cached.
  destruct (cache_get folder_name (lru st)) as [r|] eqn:E.
  - simpl. apply NoDup_cons. split; [ apply cache_remove_gone | ].
    eapply sublist_NoDup; [ exact Hnodup | ].
    apply fmap_sublist, cache_remove_sublist.
  - apply cache_get_None in E.
    destruct (maxsize <=? length (lru st))%nat; simpl; apply NoDup_cons.
    + split.
      * intros Hin. apply E.
        eapply elem_of_sublist; [ exact Hin | ].
        apply fmap_sublist, removelast_sublist.
      * eapply sublist_NoDup; [ exact Hnodup | ].
        apply fmap_sublist, removelast_sublist.
    + by split.
Qed.

Lemma cache_get_app (key : string) (l1 l2 : list (string * option Book)) :
  key ∉ l1.*1 → cache_get key (l1 ++ l2) = cache_get key l2.
Proof.
  induction l1 as [| [k v] l1 IH]; simpl; [ done | ].
  rewrite not_elem_of_cons. intros [Hne Hnot].
  destruct (String.eqb_spec k key); [ congruence | by apply IH ].
Qed.

Lemma cache_remove_app (key : string) (l1 l2 : list (string * option Book)) :
  cache_remove key (l1 ++ l2) = cache_remove key l1 ++ cache_remove key l2.
Proof.
  induction l1 as [| [k v] l1 IH]; simpl; [ done | ].
  destruct (String.eqb k key); simpl; by rewrite IH.
Qed.

Lemma held_cache_get (key : string) (result : option Book) (n : nat)
    (l : list (string * option Book)) :
  held_within key result n l → cache_get key l = Some result.
Proof.
  intros (pre & post & -> & Hpre & _).
  rewrite cache_get_app by done. apply cache_get_head.
Qed.

(** One more lookup, of any key, pushes a held entry at most one place back
    and cannot evict it while fewer than nine entries precede it. *)
Lemma held_step (disk : Disk) (key key' : string) (result : option Book)
    (n : nat) (st : ServerState) :
  held_within key result n (lru st) → (n + 1 < maxsize)%nat →
  held_within key result (n + 1) (lru (load_book_cached disk key' st).2).
Proof.
  intros Hheld Hn. pose proof (held_cache_get _ _ _ _ Hheld) as Hget.
  destruct Hheld as (pre & post & Hl & Hpre & Hlen).
  unfold load_book_cached.
  destruct (decide (key' = key)) as [-> | Hne].
  - rewrite Hget. simpl. exists [], (cache_remove key (lru st)).
    repeat split; [ apply not_elem_of_nil | simpl; lia ].
  - destruct (cache_get key' (lru st)) as [r|] eqn:E.
    + simpl. rewrite Hl, cache_remove_app. simpl.
      destruct (String.eqb_spec key key') as [Heq | _]; [ congruence | ].
      exists ((key', r) :: cache_remove key' pre), (cache_remove key' post).
      repeat split.
      * simpl. rewrite not_elem_of_cons. split; [ congruence | ].
        intros Hin. apply Hpre.
        eapply elem_of_sublist; [ exact Hin | ].
        apply fmap_sublist, cache_remove_sublist.
      * simpl. pose proof (cache_remove_length key' pre). lia.
    + destruct (Nat.leb_spec maxsize (length (lru st))) as [Hfull | Hroom];
        simpl.
      * destruct post as [| y post].
        { rewrite Hl, length_app in Hfull. simpl in Hfull. lia. }
        rewrite Hl.
        change ((key, result) :: y :: post)
          with ([(key, result)] ++ y :: post).
        rewrite app_assoc, removelast_app by done.
        rewrite <- app_assoc. simpl.
        exists ((key', load_book disk key') :: pre), (removelast (y :: post)).
        repeat split.
        -- simpl. rewrite not_elem_of_cons. split; [ congruence | done ].
        -- simpl. lia.
      * rewrite Hl.
        exists ((key', load_book disk key') :: pre), post.
        repeat split.
        -- simpl. rewrite not_elem_of_cons. split; [ congruence | done ].
        -- simpl. lia.
Qed.

Lemma held_lookups (disk : Disk) (key : string) (result : option Book)
    (keys : list string) :
  ∀ (n : nat) (st : ServerState),
    held_within key result n (lru st) →
    (n + length keys < maxsize)%nat →
    held_within key result (n + length keys) (lru (lookups disk keys st)).
Proof.
  induction keys as [| k keys IH]; intros n st Hheld Hn; simpl in *.
  - by rewrite Nat.add_0_r.
  - replace (n + S (length keys))%nat with ((n + 1) + length keys)%nat by lia.
    apply IH; [ | lia ]. apply held_step; [ done | lia ].
Qed.

(** X3: what a lookup returned stays in the cache through any nine further
    lookups, so asking again then gives the same result without running the
    loader, whatever the disk holds by then. *)
Theorem result_survives_nine_lookups (disk0 disk disk' : Disk)
    (folder_name : string) (keys : list string) (st : ServerState) :
  (length keys < maxsize)%nat →
  let first := load_book_cached disk0 folder_name st in
  let st2 := lookups disk keys first.2 in
  let again := load_book_cached disk' folder_name st2 in
  again.1 = first.1 ∧ loader_calls again.2 = loader_calls st2.
Proof.
  intros Hlen first st2 again.
  assert (held_within folder_name first.1 0 (lru first.2)) as Hheld.
  { pose proof (load_book_cached_stored disk0 folder_name st) as Hstored.
    fold first in Hstored. unfold first, load_book_cached in *.
    destruct (cache_get folder_name (lru st)) as [r|]; simpl in *;
      eexists [], _; (repeat split; [ apply not_elem_of_nil | simpl; lia ]). }
  pose proof (held_lookups disk _ _ keys 0%nat first.2 Hheld Hlen) as Hkept.
  apply held_cache_get in Hkept. fold st2 in Hkept.
  destruct (load_book_cached_hit disk' _ _ _ Hkept) as (H1 & H2 & _).
  by fold again in H1, H2.
Qed.

(** X4: a miss on a full cache drops the least recently used entry and
    nothing else: every other entry keeps its result, the new result is
    stored, and the cache is still full. *)
Theorem miss_evicts_least_recent (disk : Disk) (folder_name : string)
    (st : ServerState) (oldest : string) (old_result : option Book) :
  NoDup (cache_keys st) →
  length (lru st) = maxsize →
  cache_get folder_name (lru st) = None →
  last (lru st) = Some (oldest, old_result) →
  let st' := (load_book_cached disk folder_name st).2 in
  cache_get oldest (lru st') = None
  ∧ (∀ key result,
       key ≠ oldest → cache_get key (lru st) = Some result →
       cache_get key (lru st') = Some result)
  ∧ cache_get folder_name (lru st') = Some (load_book disk folder_name)
  ∧ length (lru st') = maxsize.
Proof.
  intros Hnodup Hlen Hmiss Hlast st'. subst st'.
  apply last_Some in Hlast as [init Hinit].
  unfold cache_keys in Hnodup. unfold load_book_cached. rewrite Hmiss.
  rewrite Hlen, Nat.leb_refl, Hinit, removelast_last. simpl.
  rewrite Hinit, fmap_app in Hnodup. simpl in Hnodup.
  apply NoDup_app in Hnodup as (_ & Hdisj & _).
  assert (oldest ∉ init.*1) as Hold.
  { intros Hin. apply (Hdisj _ Hin). by left. }
  assert (folder_name ≠ oldest) as Hne.
  { intros ->. rewrite Hinit in Hmiss.
    rewrite cache_get_None, fmap_app in Hmiss. apply Hmiss.
    apply elem_of_app. right. by left. }
  repeat split.
  - destruct (String.eqb_spec folder_name oldest); [ done | ].
    by apply cache_get_None.
  - intros key result Hkey Hget.
    destruct (String.eqb_spec folder_name key) as [-> | _]; [ congruence | ].
    destruct (cache_get key init) as [r|] eqn:E.
    + apply cache_get_Some_key in E as Hin.
      assert (cache_get key (init ++ [(oldest, old_result)]) = Some r) as Hr.
      { clear Hget Hmiss Hdisj Hold Hlen Hinit.
        induction init as [| [k w] init IH]; simpl in *; [ done | ].
        destruct (String.eqb k key); [ done | ].
        apply IH; [ done | by eapply cache_get_Some_key ]. }
      congruence.
    + apply cache_get_None in E. rewrite cache_get_app in Hget by done.
      simpl in Hget. destruct (String.eqb_spec oldest key); congruence.
  - by rewrite String.eqb_refl.
  - rewrite Hinit, length_app in Hlen. simpl in *. lia.
Qed.

Lemma fresh_server_coherent (disk : Disk) : coherent disk fresh_server.
Proof. intros key result. discriminate. Qed.

(** On a cache that agrees with the disk a lookup returns what the loader
    would, and leaves the cache in agreement with the disk. *)
Lemma coherent_step (disk : Disk) (folder_name : string) (st : ServerState) :
  coherent disk st →
  (load_book_cached disk folder_name st).1 = load_book disk folder_name
  ∧ coherent disk (load_book_cached disk folder_name st).2.
Proof.
  intros Hco. unfold load_book_cached.
  destruct (cache_get folder_name (lru st)) as [r|] eqn:E.
  - simpl. split; [ by apply Hco | ].
    intros key result. simpl.
    destruct (String.eqb_spec folder_name key) as [<- | Hne].
    + intros [= <-]. by apply Hco.
    + rewrite cache_remove_other by done. apply Hco.
  - split; [ done | ].
    intros key result.
    destruct (maxsize <=? length (lru st))%nat; simpl;
      (destruct (String.eqb_spec folder_name key) as [<- | Hne];
       [ by intros [= <-] | ]).
    + intros H. apply cache_get_removelast in H. by apply Hco.
    + apply Hco.
Qed.

Lemma coherent_lookups (disk : Disk) (keys : list string) :
  ∀ st, coherent disk st → coherent disk (lookups disk keys st).
Proof.
  induction keys as [| k keys IH]; intros st Hco; simpl; [ done | ].
  apply IH. by apply coherent_step.
Qed.

(** X5: while the disk stays the same the cache is invisible: after any run
    of lookups on a fresh server, a lookup returns exactly what the loader
    returns for that folder. *)
Theorem cache_is_transparent (disk : Disk) (keys : list string)
    (folder_name : string) :
  (load_book_cached disk folder_name (lookups disk keys fresh_server)).1
  = load_book disk folder_name.
Proof.
  apply coherent_step, coherent_lookups, fresh_server_coherent.
Qed.

(** * The library route *)

Lemma str_endswith_unfold (s suffix : string) :
  str_endswith s suffix
  = String.eqb s suffix
    || match s with
       | EmptyString => false
       | String _ s' => str_endswith s' suffix
       end.
Proof. by destruct s. Qed.

Lemma str_endswith_spec (s suffix : string) :
  str_endswith s suffix = true ↔ ∃ pre, s = pre +:+ suffix.
Proof.
  induction s as [| a s IH]; rewrite str_endswith_unfold.
  - rewrite orb_false_r, String.eqb_eq. split.
    + intros <-. by exists EmptyString.
    + intros [pre Hpre]. destruct pre; [ done | discriminate ].
  - rewrite orb_true_iff, String.eqb_eq, IH. split.
    + intros [<- | [pre ->]]; [ by exists EmptyString | ].
      by exists (String a pre).
    + intros [[| b pre] Hpre]; simpl in Hpre; [ by left | ].
      right. exists pre. by injection Hpre.
Qed.

Lemma list_books_shelf (dir : BooksDir) (items : list string) :
  ∀ books st,
    coherent (pickles dir) st →
    (list_books dir items books st).1 = books ++ shelf dir items
    ∧ coherent (pickles dir) (list_books dir items books st).2.
Proof.
  induction items as [| item items IH]; intros books st Hco; simpl.
  - by rewrite app_nil_r.
  - unfold shelf. simpl. fold (shelf dir items).
    destruct (str_endswith item "_data" && is_dir dir item); [ | by apply IH ].
    destruct (coherent_step (pickles dir) item st Hco) as [Hres Hco'].
    destruct (load_book_cached (pickles dir) item st) as [r st'].
    simpl in Hres, Hco'. subst r.
    destruct (load_book (pickles dir) item) as [book|]; simpl.
    + destruct (IH (books ++ [library_book item book]) st' Hco') as [-> ?].
      by rewrite <- app_assoc.
    + by apply IH.
Qed.

(** X6: on a cache that agrees with the disk, a fresh server's among them,
    the library page lists exactly the items of the directory that end in
    [_data], are directories and hold a loadable book, in the order of the
    directory, each with its id, title, joined authors and chapter count;
    the cache still agrees with the disk afterwards. *)
Theorem library_lists_the_shelf (dir : BooksDir) (items : list string)
    (st : ServerState) :
  coherent (pickles dir) st →
  listing dir = Items items →
  (library_view dir st).1 = LibraryPage "library.html" (shelf dir items)
  ∧ coherent (pickles dir) (library_view dir st).2.
Proof.
  intros Hco Hitems. unfold library_view. rewrite Hitems.
  destruct (list_books_shelf dir items [] st Hco) as [Hbooks Hco'].
  destruct (list_books dir items [] st) as [books st']. simpl in *.
  by subst books.
Qed.

Lemma list_books_sound (dir : BooksDir) (items : list string) :
  ∀ books st,
    ∃ more,
      (list_books dir items books st).1 = books ++ more
      ∧ LibraryBook.id <$> more `sublist_of` data_folders dir items
      ∧ Forall (λ b, ∃ pre, LibraryBook.id b = pre +:+ "_data") more.
Proof.
  induction items as [| item items IH]; intros books st; simpl.
  - exists []. by rewrite app_nil_r.
  - unfold data_folders. rewrite filter_cons. fold (data_folders dir items).
    destruct (str_endswith item "_data" && is_dir dir item) eqn:Hitem.
    + rewrite decide_True by done.
      apply andb_true_iff in Hitem as [Hends _].
      apply str_endswith_spec in Hends.
      destruct (load_book_cached (pickles dir) item st) as [[book|] st'].
      * destruct (IH (books ++ [library_book item book]) st')
          as (more & -> & Hsub & Hall).
        exists (library_book item book :: more).
        rewrite <- app_assoc. repeat split; [ by constructor | ].
        by constructor.
      * destruct (IH books st') as (more & -> & Hsub & Hall).
        exists more. repeat split; [ by constructor | done ].
    + rewrite decide_False by (by intros []). apply IH.
Qed.

(** X7: whatever the cache holds, stale entries included, when the books
    directory can be listed the ids on the library page are items of the
    directory that end in [_data] and are directories, in the order of the
    directory and each at most once per item.  (A pickle that loads is taken
    to hold a [Book], and the rendering of the template is not part of the
    statement.) *)
Theorem library_lists_only_data_folders (dir : BooksDir)
    (items : list string) (st : ServerState) :
  listing dir = Items items →
  ∃ books,
    (library_view dir st).1 = LibraryPage "library.html" books
    ∧ LibraryBook.id <$> books `sublist_of` data_folders dir items
    ∧ Forall (λ b, ∃ pre, LibraryBook.id b = pre +:+ "_data") books.
Proof.
  intros Hitems. unfold library_view. rewrite Hitems.
  destruct (list_books_sound dir items [] st) as (more & Hbooks & Hsub & Hall).
  destruct (list_books dir items [] st) as [books st']. simpl in *.
  subst books. by exists more.
Qed.

(** * The image route *)

Lemma str_app_cons (x : ascii) (a b : string) :
  String x a +:+ b = String x (a +:+ b).
Proof. reflexivity. Qed.

Lemma str_app_assoc (a b c : string) : (a +:+ b) +:+ c = a +:+ (b +:+ c).
Proof.
  induction a as [| x a IH]; [ done | ].
  by rewrite !str_app_cons, IH.
Qed.

Lemma str_app_nil_r (a : string) : a +:+ EmptyString = a.
Proof.
  induction a as [| x a IH]; [ done | ].
  by rewrite str_app_cons, IH.
Qed.

Lemma rfind_lower (c : ascii) (s : string) : -1 <= rfind c s.
Proof.
  induction s as [| a s IH]; simpl; [ lia | ].
  destruct (Z.leb_spec 0 (rfind c s)); [ lia | ].
  destruct (Ascii.eqb a c); lia.
Qed.

Lemma rfind_contains (c : ascii) (s : string) :
  rfind c s = -1 ↔ str_contains c s = false.
Proof.
  induction s as [| a s IH]; simpl; [ done | ].
  rewrite orb_false_iff, <- IH. pose proof (rfind_lower c s).
  destruct (Z.leb_spec 0 (rfind c s)).
  - split; [ lia | intros [_ ?]; lia ].
  - destruct (Ascii.eqb a c); split; try done; try lia;
      first [ by intros [? _] | intros _; split; [ done | lia ] ].
Qed.

(** The base name, one character at a time. *)
Lemma basename_cons (a : ascii) (s : string) :
  basename (String a s)
  = if str_contains "/" s then basename s
    else if Ascii.eqb a "/" then s
    else String a s.
Proof.
  unfold basename. simpl rfind. pose proof (rfind_lower "/" s) as Hlow.
  destruct (str_contains "/" s) eqn:Hs.
  - assert (rfind "/" s ≠ -1) as Hne.
    { intros H. apply rfind_contains in H. congruence. }
    rewrite (proj2 (Z.leb_le 0 (rfind "/" s))) by lia.
    replace (Z.to_nat (rfind "/" s + 1 + 1))
      with (S (Z.to_nat (rfind "/" s + 1))) by lia.
    reflexivity.
  - apply rfind_contains in Hs. rewrite Hs. simpl.
    by destruct (Ascii.eqb a "/").
Qed.

Lemma basename_no_slash (p : string) : str_contains "/" (basename p) = false.
Proof.
  induction p as [| a p IH]; [ done | ].
  rewrite basename_cons. destruct (str_contains "/" p) eqn:Hp; [ done | ].
  destruct (Ascii.eqb a "/") eqn:Ha; [ done | ].
  simpl. by rewrite Ha, Hp.
Qed.

Lemma basename_slash_free (p : string) :
  str_contains "/" p = false → basename p = p.
Proof.
  destruct p as [| a p]; [ done | ]. simpl.
  rewrite orb_false_iff. intros [Ha Hp].
  by rewrite basename_cons, Hp, Ha.
Qed.

Lemma basename_idempotent (p : string) : basename (basename p) = basename p.
Proof. apply basename_slash_free, basename_no_slash. Qed.

Lemma prefix_slash_free (b : string) :
  str_contains "/" b = false → String.prefix "/" b = false.
Proof.
  destruct b as [| c b]; [ done | ].
  simpl str_contains. rewrite orb_false_iff. intros [Hc _].
  change (String.prefix "/" (String c b))
    with (if ascii_dec "/" c then String.prefix EmptyString b else false).
  destruct (ascii_dec "/" c) as [<- | ]; [ discriminate | done ].
Qed.

Lemma endswith_slash_app (x a : string) :
  a ≠ EmptyString → str_endswith (x +:+ a) "/" = str_endswith a "/".
Proof.
  intros Ha. induction x as [| c x IH]; [ done | ].
  rewrite str_app_cons, str_endswith_unfold, IH.
  assert (String.eqb (String c (x +:+ a)) "/" = false) as ->; [ | done ].
  apply String.eqb_neq. intros [= _ Hnil].
  destruct x; [ done | discriminate ].
Qed.

Lemma endswith_slash_free (a : string) :
  str_contains "/" a = false → str_endswith a "/" = false.
Proof.
  induction a as [| c a IH]; [ done | ].
  simpl str_contains. rewrite orb_false_iff. intros [Hc Ha].
  rewrite str_endswith_unfold, (IH Ha), orb_false_r.
  apply String.eqb_neq. intros [= -> _]. done.
Qed.

Lemma path_join_images (BOOKS_DIR a b : string) :
  BOOKS_DIR ≠ EmptyString → str_endswith BOOKS_DIR "/" = false →
  str_contains "/" a = false → str_contains "/" b = false →
  path_join BOOKS_DIR [a; "images"; b] = image_path BOOKS_DIR a b.
Proof.
  intros Hne Hend Ha Hb. unfold path_join, image_path. simpl fold_left.
  assert (join_step BOOKS_DIR a = BOOKS_DIR +:+ "/" +:+ a) as ->.
  { unfold join_step. rewrite (prefix_slash_free a Ha), Hend.
    by rewrite (proj2 (String.eqb_neq BOOKS_DIR EmptyString)). }
  assert (join_step (BOOKS_DIR +:+ "/" +:+ a) "images"
          = BOOKS_DIR +:+ "/" +:+ a
            +:+ (if String.eqb a EmptyString then EmptyString else "/")
            +:+ "images") as ->.
  { unfold join_step. simpl String.prefix.
    assert (String.eqb (BOOKS_DIR +:+ "/" +:+ a) EmptyString = false) as ->.
    { apply String.eqb_neq. destruct BOOKS_DIR; [ done | discriminate ]. }
    simpl orb. destruct (String.eqb_spec a EmptyString) as [-> | Hane].
    - rewrite endswith_slash_app by done.
      change (str_endswith ("/" +:+ EmptyString) "/") with true.
      rewrite !str_app_assoc. reflexivity.
    - rewrite endswith_slash_app by done.
      assert (str_endswith ("/" +:+ a) "/" = false) as ->.
      { change ("/" +:+ a) with (String "/" a).
        rewrite str_endswith_unfold, (endswith_slash_free a Ha).
        rewrite orb_false_r. apply String.eqb_neq.
        intros [= ->]. done. }
      rewrite !str_app_assoc. reflexivity. }
  unfold join_step. rewrite (prefix_slash_free b Hb).
  set (p := BOOKS_DIR +:+ "/" +:+ a
            +:+ (if String.eqb a EmptyString then EmptyString else "/")
            +:+ "images").
  assert (String.eqb p EmptyString = false) as ->.
  { apply String.eqb_neq. unfold p. destruct BOOKS_DIR; [ done | discriminate ]. }
  assert (str_endswith p "/" = false) as ->.
  { unfold p. rewrite <- !str_app_assoc.
    rewrite endswith_slash_app by done. reflexivity. }
  unfold p. simpl orb. cbv iota.
  rewrite !str_app_assoc. reflexivity.
Qed.

Lemma str_contains_app (c : ascii) (a b : string) :
  str_contains c (a +:+ b) = str_contains c a || str_contains c b.
Proof.
  induction a as [| x a IH]; [ done | ].
  rewrite str_app_cons. simpl. by rewrite IH, orb_assoc.
Qed.

Lemma basename_after_slash (prefix a : string) :
  str_contains "/" a = false → basename (prefix +:+ "/" +:+ a) = a.
Proof.
  intros Ha. induction prefix as [| x prefix IH].
  - change (EmptyString +:+ "/" +:+ a) with (String "/" a).
    by rewrite basename_cons, Ha.
  - rewrite str_app_cons, basename_cons, str_contains_app.
    change (str_contains "/" ("/" +:+ a)) with true.
    by rewrite orb_true_r.
Qed.

(** X8: the route drops every directory that a client puts in front of the
    book id or of the image name: only what follows the last slash is looked
    up. *)
Theorem serve_image_drops_directories (BOOKS_DIR : string)
    (path_exists : string → bool) (prefix1 prefix2 a b : string) :
  str_contains "/" a = false →
  str_contains "/" b = false →
  serve_image BOOKS_DIR path_exists
    (prefix1 +:+ "/" +:+ a) (prefix2 +:+ "/" +:+ b)
  = serve_image BOOKS_DIR path_exists a b.
Proof.
  intros Ha Hb. unfold serve_image.
  by rewrite !basename_after_slash, !basename_slash_free.
Qed.

(** X9: with a books directory that is not empty and does not end with a
    slash, the route looks up [BOOKS_DIR/a/images/b], where [a] and [b] are
    the book id and the image name after their last slash and hold no slash
    themselves; it answers with that file when the path exists and with the
    404 "Image not found" when it does not.  A name without a slash is used
    as it is. *)
Theorem serve_image_path (BOOKS_DIR : string) (path_exists : string → bool)
    (book_id image_name : string) :
  BOOKS_DIR ≠ EmptyString →
  str_endswith BOOKS_DIR "/" = false →
  let a := basename book_id in
  let b := basename image_name in
  str_contains "/" a = false
  ∧ str_contains "/" b = false
  ∧ (str_contains "/" book_id = false → a = book_id)
  ∧ (str_contains "/" image_name = false → b = image_name)
  ∧ serve_image BOOKS_DIR path_exists book_id image_name
    = if path_exists (image_path BOOKS_DIR a b)
      then Return (FileResponseOf (image_path BOOKS_DIR a b))
      else Raise (HTTPException 404 "Image not found").
Proof.
  intros Hne Hend a b.
  pose proof (basename_no_slash book_id) as Ha.
  pose proof (basename_no_slash image_name) as Hb.
  repeat split; try done; try apply basename_slash_free.
  unfold serve_image. fold a b.
  rewrite (path_join_images BOOKS_DIR a b Hne Hend Ha Hb).
  by destruct (path_exists (image_path BOOKS_DIR a b)).
Qed.

(** * More on the reader route *)

Section ReaderRoute.

Variable html_parser : string → outcome (list Node).
Variable decode : Node → string.




(** X11: for a loaded book, the short route [/read/{book_id}] raises the 404
    "Chapter not found" when the spine is empty; otherwise, when the
    extraction on chapter 0 returns (it does with no anchor and on markup
    that the parser accepts), the route returns the page of chapter 0,
    narrowed by the anchor of the request like any other read, with no
    previous link and with a next link exactly when the book has a second
    chapter. *)
Theorem redirect_serves_first_chapter (disk : Disk) (request : Request)
    (book_id : string) (st : ServerState) (book : Book) :
  (load_book_cached disk book_id st).1 = Some book →
  let out :=
    redirect_to_first_chapter html_parser decode disk request book_id st in
  match spine book with
  | [] => out.1 = Raise (HTTPException 404 "Chapter not found")
  | ch :: rest =>
      ∀ sub,
        build_subsection_content html_parser decode
          (ChapterContent.content ch) (query_params request !! "anchor")
        = Return sub →
        ∃ ctx,
          out.1 = Return (TemplateResponse "reader.html" ctx)
          ∧ ctx_chapter_index ctx = 0
          ∧ ctx_current_chapter ctx
            = match sub with Some c => narrowed ch c | None => ch end
          ∧ ctx_prev_idx ctx = None
          ∧ ctx_next_idx ctx = match rest with [] => None | _ => Some 1 end
  end.
Proof.
  intros Hbook out. subst out. unfold redirect_to_first_chapter.
  destruct (spine book) as [| ch rest] eqn:Hspine.
  - unfold read_chapter.
    destruct (load_book_cached disk book_id st) as [r st'].
    simpl in Hbook. subst r. by rewrite Hspine.
  - intros sub Hsub.
    assert (spine book !! 0%nat = Some ch) as Hch by (by rewrite Hspine).
    pose proof (read_chapter_serves html_parser decode disk request book_id
                  0%nat st book ch sub Hbook Hch Hsub) as Hserves.
    change (Z.of_nat 0) with 0 in Hserves. rewrite Hserves.
    eexists. split; [ reflexivity | ]. simpl.
    repeat split. rewrite Hspine. unfold next_idx.
    destruct rest as [| c2 rest]; [ done | ].
    rewrite (proj2 (Z.ltb_lt 0 _)); [ done | simpl length; lia ].
Qed.

End ReaderRoute.

(** * More on the extraction *)

Lemma first_match_elem (s : SoupStrainer) (l : list PageElement)
    (e : PageElement) :
  first_match s l = Some e → e ∈ l ∧ search_tag s (node e) = true.
Proof.
  intros H. apply first_match_Some in H as (pre & post & -> & He & _).
  split; [ | done ]. apply elem_of_app. right. by left.
Qed.

Lemma resolve_anchor_elem (soup : PageElement) (anchor : string)
    (target : PageElement) :
  resolve_anchor soup anchor = Some target → target ∈ descendants soup.
Proof.
  unfold resolve_anchor, find.
  destruct (first_match (by_id anchor) (descendants soup)) as [t|] eqn:E1.
  { intros [= <-]. by apply first_match_elem in E1 as [? _]. }
  destruct (first_match (by_name anchor) (descendants soup)) as [t|] eqn:E2.
  { intros [= <-]. by apply first_match_elem in E2 as [? _]. }
  intros E3. by apply first_match_elem in E3 as [? _].
Qed.

Lemma resolve_anchor_None (soup : PageElement) (anchor : string) :
  resolve_anchor soup anchor = None →
  none_with (has_id anchor) (descendants soup)
  ∧ none_with (has_name anchor) (descendants soup)
  ∧ none_with (links_to anchor) (descendants soup).
Proof.
  unfold resolve_anchor, find.
  destruct (first_match (by_id anchor) (descendants soup)) eqn:E1;
    [ discriminate | ].
  destruct (first_match (by_name anchor) (descendants soup)) eqn:E2;
    [ discriminate | ].
  intros E3. repeat split.
  - apply (none_with_check (by_id anchor)); [ apply search_by_id | done ].
  - apply (none_with_check (by_name anchor)); [ apply search_by_name | done ].
  - apply (none_with_check (by_href anchor)); [ apply search_by_href | done ].
Qed.

Lemma section_start_cases (target start : PageElement)
    (start_level : option Z) :
  section_start target = Return (start, start_level) →
  start = target
  ∨ (start ∈ parents target ∧ is_heading (node start)).
Proof.
  unfold section_start. rewrite get_heading_level_total.
  destruct (heading_level (node target)) as [L|]; simpl.
  { intros [= <- _]. by left. }
  unfold find_parent.
  destruct (first_match any_heading (parents target)) as [h|] eqn:E.
  - rewrite get_heading_level_total. simpl. intros [= <- _]. right.
    apply first_match_elem in E as [Hin Hh]. split; [ done | ].
    by apply search_any_heading.
  - intros [= <- _]. by left.
Qed.

(** The ancestors of an ancestor are the ancestors that come after it. *)
Lemma parents_in_suffix (fs : list Frame) :
  ∀ (n : Node) (e : PageElement),
    e ∈ parents_in n fs → ∃ pre, parents_in n fs = pre ++ e :: parents e.
Proof.
  induction fs as [| f up IH]; intros n e; simpl.
  - by intros ?%elem_of_nil.
  - intros [-> | Hin]%elem_of_cons.
    + by exists [].
    + destruct (IH _ _ Hin) as [pre Hpre].
      exists ({| node := plug f n; above := up |} :: pre).
      simpl. by rewrite Hpre.
Qed.

Lemma join_nodes_cons (decode : Node → string) (n : Node) (l : list Node) :
  join_nodes decode (n :: l) = decode n +:+ join_nodes decode l.
Proof.
  unfold join_nodes. destruct l as [| m l]; simpl; [ | done ].
  by rewrite str_app_nil_r.
Qed.

Lemma join_nodes_app (decode : Node → string) (l1 l2 : list Node) :
  join_nodes decode (l1 ++ l2)
  = join_nodes decode l1 +:+ join_nodes decode l2.
Proof.
  induction l1 as [| n l1 IH]; [ done | ].
  change ((n :: l1) ++ l2) with (n :: (l1 ++ l2)).
  by rewrite !join_nodes_cons, IH, str_app_assoc.
Qed.

Section Extraction.

Variable html_parser : string → outcome (list Node).
Variable decode : Node → string.

(** X12: on markup that the parser accepts, the extraction returns None
    exactly when there is no anchor, the anchor is the empty string, or no
    element of the document has the anchor as its id, as its name, or is a
    link to it. *)
Theorem extraction_is_none_iff (html : string) (anchor : option string)
    (soup : PageElement) :
  BeautifulSoup html_parser html = Return soup →
  build_subsection_content html_parser decode html anchor = Return None
  ↔ anchor = None
    ∨ anchor = Some EmptyString
    ∨ ∃ a, anchor = Some a
           ∧ none_with (has_id a) (descendants soup)
           ∧ none_with (has_name a) (descendants soup)
           ∧ none_with (links_to a) (descendants soup).
Proof.
  intros Hsoup. split.
  - destruct anchor as [[| c a] |]; [ by right; left | | by left ].
    intros Hnone. right. right. exists (String c a). split; [ done | ].
    apply resolve_anchor_None.
    destruct (resolve_anchor soup (String c a)) as [target|] eqn:E; [ | done ].
    exfalso.
    destruct (section_start_total target) as (start & lvl & Hstart).
    destruct (build_resolved html_parser decode html (String c a) soup target
                start lvl) as (span & _ & Hbuild); try done.
    congruence.
  - intros [-> | [-> | (a & -> & Hid & Hname & Hlink)]]; [ done | done | ].
    apply (build_unresolved html_parser decode html a soup Hsoup).
    by apply resolve_nothing.
Qed.

(** X13: a subsection that the extraction returns is the serialization of
    consecutive children of one element: the start node, which is the
    resolved target or one of its ancestors, and the siblings that directly
    follow it in its parent. *)
Theorem subsection_is_a_run_of_siblings (html anchor : string)
    (soup : PageElement) (subsection : string) :
  BeautifulSoup html_parser html = Return soup →
  build_subsection_content html_parser decode html (Some anchor)
  = Return (Some subsection) →
  ∃ target start parent nm attrs before span after,
    resolve_anchor soup anchor = Some target
    ∧ target ∈ descendants soup
    ∧ (start = target ∨ start ∈ parents target)
    ∧ head (parents start) = Some parent
    ∧ parent ∈ parents target
    ∧ node parent = Tag nm attrs (before ++ node start :: span ++ after)
    ∧ next_siblings start = span ++ after
    ∧ subsection = join_nodes decode (node start :: span).
Proof.
  intros Hsoup Hbuild.
  assert (anchor ≠ EmptyString) as Hne by (by intros ->).
  destruct (resolve_anchor soup anchor) as [target|] eqn:Hres.
  2: { rewrite (build_unresolved html_parser decode html anchor soup Hsoup Hres)
         in Hbuild. discriminate. }
  pose proof (resolve_anchor_elem _ _ _ Hres) as Hin.
  destruct (section_start_total target) as (start & lvl & Hstart).
  destruct (build_resolved html_parser decode html anchor soup target start
              lvl Hne Hsoup Hres Hstart) as (span & Hspan & Hbuild').
  rewrite Hbuild' in Hbuild. injection Hbuild as <-.
  destruct Hspan as (after & Hsibs & _ & _).
  assert (above soup = [] ∧ ¬ is_heading (node soup)) as [Hroot Hdoc].
  { unfold BeautifulSoup in Hsoup.
    destruct (html_parser html) as [cs|]; [ | discriminate ].
    injection Hsoup as <-. split; [ done | ]. by intros [? ?]. }
  destruct (descendants_rooted soup target Hroot Hin) as [ps Hps].
  assert (∃ f up, above start = f :: up
                  ∧ {| node := plug f (node start); above := up |}
                    ∈ parents target) as (f & up & Habove & Hparent).
  { destruct (section_start_cases _ _ _ Hstart) as [-> | [Hanc Hhead]].
    - destruct (above target) as [| f up] eqn:Ha.
      + unfold parents in Hps. rewrite Ha in Hps. by destruct ps.
      + exists f, up. split; [ done | ].
        unfold parents. rewrite Ha. simpl. by left.
    - destruct (parents_in_suffix _ _ _ Hanc) as [pre Hpre].
      fold (parents target) in Hpre.
      destruct (above start) as [| f up] eqn:Ha.
      + exfalso. unfold parents at 2 in Hpre. rewrite Ha in Hpre.
        simpl in Hpre. rewrite Hps in Hpre.
        apply app_inj_tail in Hpre as [_ <-]. done.
      + exists f, up. split; [ done | ].
        rewrite Hpre. apply elem_of_app. right. right.
        unfold parents. rewrite Ha. simpl. by left. }
  exists target, start, {| node := plug f (node start); above := up |},
    (fr_name f), (fr_attrs f), (rev (fr_previous f)), span, after.
  repeat split; try done.
  - destruct (section_start_cases _ _ _ Hstart) as [-> | [Hanc _]];
      [ by left | by right ].
  - unfold parents. by rewrite Habove.
  - unfold plug. simpl. unfold next_siblings in Hsibs.
    rewrite Habove in Hsibs. by rewrite Hsibs.
Qed.

(** X14: sections nest.  When a heading of level k follows a start node of
    level L < k with no end of the L-section in between, the nodes collected
    from that heading are a run inside the nodes collected from the start
    node, so the deeper subsection is a part of the text of the outer one. *)
Theorem sections_nest (L k : Z) (a h : Node)
    (pre post nodesA nodesH : list Node) :
  L < k →
  heading_level h = Some k →
  Forall (λ s, ¬ ends_section L s) pre →
  collect_siblings (Some L) (pre ++ h :: post) [a] = Return nodesA →
  collect_siblings (Some k) post [h] = Return nodesH →
  ∃ tail,
    nodesA = a :: pre ++ nodesH ++ tail
    ∧ join_nodes decode nodesA
      = join_nodes decode (a :: pre) +:+ join_nodes decode nodesH
        +:+ join_nodes decode tail.
Proof.
  intros HLk Hh Hpre HA HH.
  destruct (collect_siblings_spec (Some L) (pre ++ h :: post) [a])
    as (spanA & HspanA & HA').
  destruct (collect_siblings_spec (Some k) post [h])
    as (spanH & HspanH & HH').
  rewrite HA in HA'. injection HA' as ->.
  rewrite HH in HH'. injection HH' as ->.
  simpl in HspanA, HspanH.
  destruct HspanH as (restH & -> & HallH & HrestH).
  destruct (collect_siblings_spec (Some L) restH [])
    as (tail & Htail & _).
  simpl in Htail. destruct Htail as (rest & -> & Hall & Hrest).
  exists tail.
  assert (spanA = pre ++ h :: spanH ++ tail) as ->.
  { apply (span_before_unique _ _ _ _ HspanA).
    exists rest. split; [ by simplify_list_eq | ].
    split; [ | done ].
    apply Forall_app. split; [ done | ].
    constructor.
    { intros (k' & Hk' & Hle). simplify_eq. lia. }
    apply Forall_app. split; [ | done ].
    eapply Forall_impl; [ exact HallH | ].
    intros s Hs (k' & Hk' & Hle). apply Hs. exists k'. split; [ done | lia ]. }
  split; [ done | ].
  transitivity (join_nodes decode ((a :: pre) ++ (h :: spanH) ++ tail)).
  { reflexivity. }
  by rewrite !join_nodes_app.
Qed.

End Extraction.

Section HeadingSpan.

Variable html_parser : string → outcome (list Node).
Variable decode : Node → string.

(** The start node of an extraction has a parent, which is one of the
    ancestors of the target. *)
Lemma start_has_parent (html anchor : string) (soup target start : PageElement)
    (start_level : option Z) :
  BeautifulSoup html_parser html = Return soup →
  resolve_anchor soup anchor = Some target →
  section_start target = Return (start, start_level) →
  ∃ f up,
    above start = f :: up
    ∧ {| node := plug f (node start); above := up |} ∈ parents target.
Proof.
  intros Hsoup Hres Hstart.
  pose proof (resolve_anchor_elem _ _ _ Hres) as Hin.
  assert (above soup = [] ∧ ¬ is_heading (node soup)) as [Hroot Hdoc].
  { unfold BeautifulSoup in Hsoup.
    destruct (html_parser html) as [cs|]; [ | discriminate ].
    injection Hsoup as <-. split; [ done | ]. by intros [? ?]. }
  destruct (descendants_rooted soup target Hroot Hin) as [ps Hps].
  destruct (section_start_cases _ _ _ Hstart) as [-> | [Hanc Hhead]].
  - destruct (above target) as [| f up] eqn:Ha.
    + unfold parents in Hps. rewrite Ha in Hps. by destruct ps.
    + exists f, up. split; [ done | ].
      unfold parents. rewrite Ha. simpl. by left.
  - destruct (parents_in_suffix _ _ _ Hanc) as [pre Hpre].
    fold (parents target) in Hpre.
    destruct (above start) as [| f up] eqn:Ha.
    + exfalso. unfold parents at 2 in Hpre. rewrite Ha in Hpre.
      simpl in Hpre. rewrite Hps in Hpre.
      apply app_inj_tail in Hpre as [_ <-]. done.
    + exists f, up. split; [ done | ].
      rewrite Hpre. apply elem_of_app. right. right.
      unfold parents. rewrite Ha. simpl. by left.
Qed.

(** C2: when the anchor resolves to a heading of level L, or to a node whose
    nearest heading ancestor has level L, that heading is a child of an
    element of the document, and the subsection is the serialization of the
    heading followed by the children of that element that come after it, in
    document order, up to, but not including, the first one that is a
    heading of level at most L, and all of them when there is none; a deeper
    heading that no such boundary precedes is in the span, at its place. *)
Theorem C2_heading_span
    (html anchor : string) (soup target start : PageElement) (L : Z) :
  anchor ≠ EmptyString →
  BeautifulSoup html_parser html = Return soup →
  resolve_anchor soup anchor = Some target →
  owning_heading target start L →
  ∃ parent nm attrs before following span,
    head (parents start) = Some parent
    ∧ parent ∈ parents target
    ∧ node parent = Tag nm attrs (before ++ node start :: following)
    ∧ next_siblings start = following
    ∧ span_before (ends_section L) following span
    ∧ build_subsection_content html_parser decode html (Some anchor)
      = Return (Some (String.concat EmptyString
                        (map decode (node start :: span))))
    ∧ (Forall (λ s, ¬ ends_section L s) following → span = following)
    ∧ (∀ (i : nat) (s : Node) (k : Z),
         following !! i = Some s →
         heading_level s = Some k → L < k →
         (∀ (j : nat) (t : Node), (j < i)%nat →
            following !! j = Some t → ¬ ends_section L t) →
         span !! i = Some s).
Proof.
  intros Hne Hsoup Hres Hown.
  assert (section_start target = Return (start, Some L)) as Hstart.
  { destruct Hown as [[-> HL] | (Ht & Hnear & HL)].
    - by apply section_start_heading.
    - by apply section_start_promoted. }
  destruct (build_resolved html_parser decode html anchor soup target start
              (Some L)) as (span & Hspan & Hbuild); auto.
  destruct (start_has_parent html anchor soup target start (Some L)
              Hsoup Hres Hstart) as (f & up & Habove & Hparent).
  assert (next_siblings start = fr_next f) as Hsibs.
  { unfold next_siblings. by rewrite Habove. }
  rewrite Hsibs in Hspan.
  exists {| node := plug f (node start); above := up |},
    (fr_name f), (fr_attrs f), (rev (fr_previous f)), (fr_next f), span.
  split; [ unfold parents; by rewrite Habove | ].
  split; [ done | ]. split; [ done | ]. split; [ done | ].
  split; [ done | ]. split; [ done | ].
  split; [ by apply span_before_all | ].
  intros i s k Hi Hk HLk Hbefore.
  apply (span_before_lookup _ _ _ _ _ Hspan Hi).
  intros j t Hj Ht. destruct (decide (j = i)) as [-> | Hji].
  - intros (k' & Hk' & Hle). simplify_eq. lia.
  - apply (Hbefore j t); [ lia | done ].
Qed.

End HeadingSpan.

(** X15: an element that the resolution returns was found by the first
    strategy that has a hit: it is the first element with the anchor as its
    id, or no element has that id and it is the first with the anchor as its
    name, or neither exists and it is the first link to the anchor. *)
Theorem resolve_anchor_sound (soup : PageElement) (anchor : string)
    (target : PageElement) :
  resolve_anchor soup anchor = Some target →
  let D := descendants soup in
  first_with (has_id anchor) D target
  ∨ (none_with (has_id anchor) D ∧ first_with (has_name anchor) D target)
  ∨ (none_with (has_id anchor) D ∧ none_with (has_name anchor) D
     ∧ first_with (links_to anchor) D target).
Proof.
  intros Hres D. subst D. unfold resolve_anchor, find in Hres.
  destruct (first_match (by_id anchor) (descendants soup)) as [t|] eqn:E1.
  { injection Hres as ->. left.
    apply (first_with_check (by_id anchor)); [ apply search_by_id | done ]. }
  apply (none_with_check (by_id anchor) _ _ (search_by_id anchor)) in E1.
  destruct (first_match (by_name anchor) (descendants soup)) as [t|] eqn:E2.
  { injection Hres as ->. right. left. split; [ done | ].
    apply (first_with_check (by_name anchor)); [ apply search_by_name | done ]. }
  apply (none_with_check (by_name anchor) _ _ (search_by_name anchor)) in E2.
  right. right. repeat split; try done.
  apply (first_with_check (by_href anchor)); [ apply search_by_href | done ].
Qed.

(** * The routes together *)

Section Routes.

Variable html_parser : string → outcome (list Node).
Variable decode : Node → string.


End Routes.

(** * Checks of the further properties on the samples *)

(** The first lookup on a fresh server. *)
Lemma lookup_keeps_cache_ok_witness :
  cache_ok (load_book_cached one_book "sample_data" fresh_server).2.
Proof.
  apply (lookup_keeps_cache_ok one_book "sample_data" fresh_server).
  split; [ constructor | simpl; unfold maxsize; lia ].
Defined.

(** A book that loads, nine other lookups, and a disk that has lost it. *)
Lemma result_survives_nine_lookups_witness :
  let first := load_book_cached one_book "sample_data" fresh_server in
  let st2 := lookups one_book nine_others first.2 in
  let again := load_book_cached no_books "sample_data" st2 in
  again.1 = first.1 ∧ loader_calls again.2 = loader_calls st2.
Proof.
  apply (result_survives_nine_lookups one_book one_book no_books
           "sample_data" nine_others fresh_server).
  vm_compute. lia.
Defined.

(** The full server, asked for an eleventh folder. *)
Lemma miss_evicts_least_recent_witness :
  let st' := (load_book_cached one_book "b10" full_server).2 in
  cache_get "sample_data" (lru st') = None
  ∧ (∀ key result,
       key ≠ "sample_data" → cache_get key (lru full_server) = Some result →
       cache_get key (lru st') = Some result)
  ∧ cache_get "b10" (lru st') = Some (load_book one_book "b10")
  ∧ length (lru st') = maxsize.
Proof.
  apply (miss_evicts_least_recent one_book "b10" full_server "sample_data"
           None).
  - apply (bool_decide_unpack _). vm_compute. exact I.
  - vm_compute. reflexivity.
  - vm_compute. reflexivity.
  - vm_compute. reflexivity.
Defined.

(** The sample directory on a fresh server: one book is listed. *)
Lemma library_lists_the_shelf_witness :
  (library_view sample_dir fresh_server).1
  = LibraryPage "library.html"
      (shelf sample_dir
         ["notes.txt"; "sample_data"; "broken_data"; "empty_data";
          "loose_data"])
  ∧ coherent (pickles sample_dir) (library_view sample_dir fresh_server).2.
Proof.
  apply (library_lists_the_shelf sample_dir).
  - apply fresh_server_coherent.
  - reflexivity.
Defined.

Example sample_shelf :
  shelf sample_dir
    ["notes.txt"; "sample_data"; "broken_data"; "empty_data"; "loose_data"]
  = [ {| LibraryBook.id := "sample_data";
         LibraryBook.title := "Sample";
         LibraryBook.author := "A. Writer";
         LibraryBook.chapters := 3 |} ].
Proof. vm_compute. reflexivity. Qed.

(** A request that tries to climb out of the books directory. *)
Lemma serve_image_drops_directories_witness :
  serve_image "." one_image
    ("../.." +:+ "/" +:+ "sample_data") ("/etc" +:+ "/" +:+ "cover.jpg")
  = serve_image "." one_image "sample_data" "cover.jpg".
Proof.
  apply (serve_image_drops_directories "." one_image "../.." "/etc"
           "sample_data" "cover.jpg"); reflexivity.
Defined.

(** The default books directory, and a book id of two dots. *)
Lemma serve_image_path_witness :
  let a := basename ".." in
  let b := basename "a/cover.jpg" in
  str_contains "/" a = false
  ∧ str_contains "/" b = false
  ∧ (str_contains "/" ".." = false → a = "..")
  ∧ (str_contains "/" "a/cover.jpg" = false → b = "a/cover.jpg")
  ∧ serve_image "." one_image ".." "a/cover.jpg"
    = if one_image (image_path "." a b)
      then Return (FileResponseOf (image_path "." a b))
      else Raise (HTTPException 404 "Image not found").
Proof.
  apply (serve_image_path "." one_image ".." "a/cover.jpg");
    [ discriminate | reflexivity ].
Defined.

Example two_dots_reach_the_parent :
  image_path "." (basename "..") (basename "a/cover.jpg")
  = "./../images/cover.jpg".
Proof. vm_compute. reflexivity. Qed.


(** The sample book, opened by the short route with the anchor [x]. *)
Lemma redirect_serves_first_chapter_witness :
  let out :=
    redirect_to_first_chapter sample_parser plain_decode one_book
      (request_with (Some "x")) "sample_data" fresh_server in
  ∃ ctx,
    out.1 = Return (TemplateResponse "reader.html" ctx)
    ∧ ctx_chapter_index ctx = 0
    ∧ ctx_current_chapter ctx
      = narrowed (chapter "c0" flat_html 0) (plain_decode flat_par)
    ∧ ctx_prev_idx ctx = None
    ∧ ctx_next_idx ctx = Some 1.
Proof.
  apply (redirect_serves_first_chapter sample_parser plain_decode one_book
           (request_with (Some "x")) "sample_data" fresh_server sample_book
           eq_refl (Some (plain_decode flat_par))).
  vm_compute. reflexivity.
Defined.

(** The nesting sample: nothing matches [zz]. *)
Lemma extraction_is_none_iff_witness :
  build_subsection_content sample_parser plain_decode nest_html (Some "zz")
  = Return None
  ↔ Some "zz" = None
    ∨ Some "zz" = Some EmptyString
    ∨ ∃ a, Some "zz" = Some a
           ∧ none_with (has_id a) (descendants (soup_of nest_doc))
           ∧ none_with (has_name a) (descendants (soup_of nest_doc))
           ∧ none_with (links_to a) (descendants (soup_of nest_doc)).
Proof.
  apply (extraction_is_none_iff sample_parser plain_decode nest_html
           (Some "zz") (soup_of nest_doc)).
  vm_compute. reflexivity.
Defined.

(** The nesting sample, anchor [s]: the run starts at the first heading, a
    child of the document. *)
Lemma subsection_is_a_run_of_siblings_witness :
  ∃ target start parent nm attrs before span after,
    resolve_anchor (soup_of nest_doc) "s" = Some target
    ∧ target ∈ descendants (soup_of nest_doc)
    ∧ (start = target ∨ start ∈ parents target)
    ∧ head (parents start) = Some parent
    ∧ parent ∈ parents target
    ∧ node parent = Tag nm attrs (before ++ node start :: span ++ after)
    ∧ next_siblings start = span ++ after
    ∧ join_nodes plain_decode [nest_hA; nest_p1; nest_hB; nest_p2]
      = join_nodes plain_decode (node start :: span).
Proof.
  apply (subsection_is_a_run_of_siblings sample_parser plain_decode nest_html
           "s" (soup_of nest_doc)
           (join_nodes plain_decode [nest_hA; nest_p1; nest_hB; nest_p2]));
    vm_compute; reflexivity.
Defined.

(** The nesting sample: the section of heading B inside the section of
    heading A. *)
Lemma sections_nest_witness :
  ∃ tail,
    [nest_hA; nest_p1; nest_hB; nest_p2]
    = nest_hA :: [nest_p1] ++ [nest_hB; nest_p2] ++ tail
    ∧ join_nodes plain_decode [nest_hA; nest_p1; nest_hB; nest_p2]
      = join_nodes plain_decode (nest_hA :: [nest_p1])
        +:+ join_nodes plain_decode [nest_hB; nest_p2]
        +:+ join_nodes plain_decode tail.
Proof.
  apply (sections_nest plain_decode 2 3 nest_hA nest_hB [nest_p1]
           [nest_p2; nest_hC; nest_p3]).
  - lia.
  - vm_compute. reflexivity.
  - constructor; [ | constructor ].
    intros (k & Hk & _). vm_compute in Hk. discriminate.
  - vm_compute. reflexivity.
  - vm_compute. reflexivity.
Defined.

(** The nesting sample, anchor [k]: an id that comes after a name. *)
Lemma resolve_anchor_sound_witness :
  let D := descendants (soup_of nest_doc) in
  first_with (has_id "k") D (nth_descendant nest_doc 12)
  ∨ (none_with (has_id "k") D
     ∧ first_with (has_name "k") D (nth_descendant nest_doc 12))
  ∨ (none_with (has_id "k") D ∧ none_with (has_name "k") D
     ∧ first_with (links_to "k") D (nth_descendant nest_doc 12)).
Proof.
  apply (resolve_anchor_sound (soup_of nest_doc) "k"
           (nth_descendant nest_doc 12)).
  vm_compute. reflexivity.
Defined.


(** In the nesting sample the section of the first heading ends before the
    second h2. *)
Lemma nest_span_A :
  span_before (ends_section 2)
    [nest_p1; nest_hB; nest_p2; nest_hC; nest_p3] [nest_p1; nest_hB; nest_p2].
Proof.
  destruct (collect_siblings_spec (Some 2)
              [nest_p1; nest_hB; nest_p2; nest_hC; nest_p3] [])
    as (span & Hspan & Hrun).
  assert (span = [nest_p1; nest_hB; nest_p2]) as ->; [ | exact Hspan ].
  assert (collect_siblings (Some 2)
            [nest_p1; nest_hB; nest_p2; nest_hC; nest_p3] []
          = Return [nest_p1; nest_hB; nest_p2]) as Hc
    by (vm_compute; reflexivity).
  rewrite Hc in Hrun. by injection Hrun.
Qed.

(** The nesting sample, anchor [s]: the span with that id sits inside the
    first heading, a child of the document; the five children after the
    heading are walked and the subsection is the heading and the next three,
    up to the second h2. *)
Lemma C2_witness :
  node (nth_descendant nest_doc 0) = nest_hA
  ∧ head (parents (nth_descendant nest_doc 0)) = Some (soup_of nest_doc)
  ∧ node (soup_of nest_doc)
    = Tag "[document]" ∅
        ([] ++ nest_hA :: [nest_p1; nest_hB; nest_p2; nest_hC; nest_p3])
  ∧ next_siblings (nth_descendant nest_doc 0)
    = [nest_p1; nest_hB; nest_p2; nest_hC; nest_p3]
  ∧ span_before (ends_section 2)
      [nest_p1; nest_hB; nest_p2; nest_hC; nest_p3]
      [nest_p1; nest_hB; nest_p2]
  ∧ build_subsection_content sample_parser plain_decode nest_html (Some "s")
    = Return (Some (String.concat EmptyString
                      (map plain_decode [nest_hA; nest_p1; nest_hB; nest_p2]))).
Proof.
  destruct (C2_heading_span sample_parser plain_decode nest_html "s"
              (soup_of nest_doc) (nth_descendant nest_doc 2)
              (nth_descendant nest_doc 0) 2)
    as (parent & nm & attrs & before & following & span
        & Hparent & _ & Hnode & Hsibs & Hspan & Hbuild & _).
  - discriminate.
  - vm_compute. reflexivity.
  - vm_compute. reflexivity.
  - right. split; [ vm_compute; reflexivity | ].
    split; [ exact nest_span_owner | vm_compute; reflexivity ].
  - assert (following = [nest_p1; nest_hB; nest_p2; nest_hC; nest_p3])
      as -> by (rewrite <- Hsibs; vm_compute; reflexivity).
    rewrite (span_before_unique _ _ _ _ Hspan nest_span_A) in Hbuild.
    split; [ vm_compute; reflexivity | ].
    split; [ vm_compute; reflexivity | ].
    split; [ vm_compute; reflexivity | ].
    split; [ vm_compute; reflexivity | ].
    split; [ exact nest_span_A | ].
    etransitivity; [ exact Hbuild | vm_compute; reflexivity ].
Defined.


(** A read that gets as far as the extraction, on markup that the parser
    rejects, and a read past the end of the spine. *)
Lemma read_chapter_exceptions_witness :
  (ParserRejectedMarkup = HTTPException 404 "Book not found"
   ∨ ParserRejectedMarkup = HTTPException 404 "Chapter not found"
   ∨ ∃ html, strict_parser html = Raise ParserRejectedMarkup)
  ∧ (HTTPException 404 "Chapter not found"
     = HTTPException 404 "Book not found"
     ∨ HTTPException 404 "Chapter not found"
       = HTTPException 404 "Chapter not found"
     ∨ ∃ html,
         strict_parser html = Raise (HTTPException 404 "Chapter not found")).
Proof.
  split.
  - apply (read_chapter_exceptions strict_parser plain_decode bad_disk
             (request_with (Some "x")) "bad_data" 0 fresh_server).
    vm_compute. reflexivity.
  - apply (read_chapter_exceptions strict_parser plain_decode one_book
             (request_with (Some "x")) "sample_data" 5 fresh_server).
    vm_compute. reflexivity.
Defined.

(** The sample directory on the stale server: the sample book is on the
    disk but the cache still answers None, and nothing is listed. *)
Lemma library_lists_only_data_folders_witness :
  ∃ books,
    (library_view sample_dir stale_server).1
    = LibraryPage "library.html" books
    ∧ LibraryBook.id <$> books
      `sublist_of` data_folders sample_dir
                     ["notes.txt"; "sample_data"; "broken_data"; "empty_data";
                      "loose_data"]
    ∧ Forall (λ b, ∃ pre, LibraryBook.id b = pre +:+ "_data") books.
Proof.
  apply (library_lists_only_data_folders sample_dir
           ["notes.txt"; "sample_data"; "broken_data"; "empty_data";
            "loose_data"] stale_server).
  reflexivity.
Defined.

Example stale_library_is_empty :
  (library_view sample_dir stale_server).1 = LibraryPage "library.html" [].
Proof. vm_compute. reflexivity. Qed.
